(** * LexiSearch dictionary client: a shallow embedding of [script.js]

    The page script is a dictionary lookup client.  It trims and lowercases
    the text of an input field, fetches the entry of that word from a public
    API, renders the first meaning of the first entry, and keeps a short
    most-recent-first history of the words found, persisted as JSON in
    [localStorage].

    Modelling choices.
    - A JavaScript string is its sequence of UTF-16 code units, a [list N].
      String literals of the script are written [js "..."].
    - Library functions whose definition needs the Unicode tables
      ([toLowerCase], [toUpperCase]) and the texts of the messages the
      engine puts in the errors it raises are fields of an [Engine].
    - The DOM is reduced to the values the script interpolates into its
      markup templates: a [View] for [resultSection.innerHTML] and a
      [HistoryMarkup] for [historyList.innerHTML].
    - [performSearch] is an [async] function; one call is modelled as run to
      completion against the outcome of its [fetch], and the URLs it
      requested are logged in the state.
    - The entry returned by the API is typed as the script reads it: every
      property the script guards with [&&] or [||] is optional. *)

From Stdlib Require Import NArith ZArith String Ascii Lia.
From stdpp Require Import base list gmap.

Open Scope N_scope.

(** ** Strings as sequences of UTF-16 code units *)

Abbreviation jstring := (list N).

Definition js (s : string) : jstring :=
  N_of_ascii <$> list_ascii_of_string s.
Arguments js s%_string.

(** The double quote character (U+0022), which the templates of the script
    embed. *)
Definition dquote : jstring := [0x22].

(** WhiteSpace and LineTerminator code points of ECMAScript, the characters
    [String.prototype.trim] strips. *)
Definition isWhiteSpace (c : N) : bool :=
  (c =? 0x9) || (c =? 0xA) || (c =? 0xB) || (c =? 0xC) || (c =? 0xD)
  || (c =? 0x20) || (c =? 0xA0) || (c =? 0x1680)
  || ((0x2000 <=? c) && (c <=? 0x200A))
  || (c =? 0x2028) || (c =? 0x2029) || (c =? 0x202F) || (c =? 0x205F)
  || (c =? 0x3000) || (c =? 0xFEFF).

Fixpoint trimStart (s : jstring) : jstring :=
  match s with
  | [] => []
  | c :: s' => if isWhiteSpace c then trimStart s' else s
  end.

Definition trimEnd (s : jstring) : jstring := rev (trimStart (rev s)).

Definition trim (s : jstring) : jstring := trimEnd (trimStart s).

(** [s.charAt(0)] and [s.slice(1)]. *)
Definition charAt0 (s : jstring) : jstring := take 1 s.
Definition slice1 (s : jstring) : jstring := drop 1 s.

(** ** The engine *)

Record Engine := {
  toLowerCase : jstring -> jstring;
  toUpperCase : jstring -> jstring;
  (** message of the [SyntaxError] that [JSON.parse] raises on a text *)
  syntaxErrorMessage : jstring -> jstring;
  (** message of the [TypeError] raised when [undefined] is destructured *)
  destructureErrorMessage : jstring
}.

(** An engine for ASCII text, used to run the model on examples. *)
Definition asciiLower (c : N) : N :=
  if (0x41 <=? c) && (c <=? 0x5A) then c + 0x20 else c.
Definition asciiUpper (c : N) : N :=
  if (0x61 <=? c) && (c <=? 0x7A) then c - 0x20 else c.

Definition asciiEngine : Engine := {|
  toLowerCase := fmap asciiLower;
  toUpperCase := fmap asciiUpper;
  syntaxErrorMessage := fun _ => js "Unexpected token";
  destructureErrorMessage := js "Cannot destructure property 'word' of 'wordData' as it is undefined."
|}.

(** ** Exceptions *)

Inductive exn :=
| Error (message : jstring)
| TypeError (message : jstring)
| SyntaxError (message : jstring).

Definition message (e : exn) : jstring :=
  match e with
  | Error m | TypeError m | SyntaxError m => m
  end.

(** ** JSON *)

(** A number literal as written: sign, digits of the integer part, digits of
    the fraction, decimal exponent.  It denotes
    [± (intDigits.fracDigits) × 10 ^ exponent]. *)
Record JSONNumber := {
  negative : bool;
  intDigits : list N;
  fracDigits : list N;
  exponent : Z
}.

Inductive json :=
| JNull
| JBool (b : bool)
| JNumber (n : JSONNumber)
| JString (s : jstring)
| JArray (elements : list json)
| JObject (members : list (jstring * json)).

Definition digitsValue (ds : list N) : N :=
  foldl (fun acc d => 10 * acc + d) 0 ds.

Definition mantissa (n : JSONNumber) : N :=
  digitsValue (intDigits n ++ fracDigits n).

Definition scale (n : JSONNumber) : Z :=
  (exponent n - Z.of_nat (length (fracDigits n)))%Z.

(** The literal denotes [mantissa × 10 ^ scale] up to sign.  Its Number value
    is the nearest double, ties to even; that double is a zero exactly when
    the magnitude is at most [2 ^ -1075], half the least subnormal. *)
Definition roundsToZero (n : JSONNumber) : bool :=
  (mantissa n =? 0)
  || ((scale n <? 0)%Z
      && (Z.of_N (mantissa n) * 2 ^ 1075 <=? 10 ^ (- scale n))%Z).

(** ToBoolean on the values [JSON.parse] returns. *)
Definition truthy (v : json) : bool :=
  match v with
  | JNull => false
  | JBool b => b
  | JNumber n => negb (roundsToZero n)
  | JString s => match s with [] => false | _ :: _ => true end
  | JArray _ | JObject _ => true
  end.

(** *** [JSON.stringify] on an array of strings *)

Definition hexDigit (d : N) : N := if d <? 10 then 0x30 + d else 0x57 + d.

(** [\uXXXX] with four lowercase hexadecimal digits. *)
Definition UnicodeEscape (c : N) : jstring :=
  [0x5C; 0x75; hexDigit (c / 4096); hexDigit ((c / 256) mod 16);
   hexDigit ((c / 16) mod 16); hexDigit (c mod 16)].

Definition isLeadingSurrogate (c : N) : bool := (0xD800 <=? c) && (c <=? 0xDBFF).
Definition isTrailingSurrogate (c : N) : bool := (0xDC00 <=? c) && (c <=? 0xDFFF).

(** The characters of QuoteJSONString between the two quotes: the short
    escapes, [\u] escapes for the other control characters and for lone
    surrogates, everything else as it is. *)
Fixpoint quoteChars (s : jstring) : jstring :=
  match s with
  | [] => []
  | c :: s' =>
      if c =? 0x8 then [0x5C; 0x62] ++ quoteChars s'
      else if c =? 0x9 then [0x5C; 0x74] ++ quoteChars s'
      else if c =? 0xA then [0x5C; 0x6E] ++ quoteChars s'
      else if c =? 0xC then [0x5C; 0x66] ++ quoteChars s'
      else if c =? 0xD then [0x5C; 0x72] ++ quoteChars s'
      else if c =? 0x22 then [0x5C; 0x22] ++ quoteChars s'
      else if c =? 0x5C then [0x5C; 0x5C] ++ quoteChars s'
      else if c <? 0x20 then UnicodeEscape c ++ quoteChars s'
      else if isLeadingSurrogate c then
        match s' with
        | d :: s'' =>
            if isTrailingSurrogate d then c :: d :: quoteChars s''
            else UnicodeEscape c ++ quoteChars s'
        | [] => UnicodeEscape c ++ quoteChars s'
        end
      else if isTrailingSurrogate c then UnicodeEscape c ++ quoteChars s'
      else c :: quoteChars s'
  end.

Definition QuoteJSONString (s : jstring) : jstring :=
  0x22 :: quoteChars s ++ [0x22].

Fixpoint joinComma (parts : list jstring) : jstring :=
  match parts with
  | [] => []
  | p :: ps =>
      match ps with
      | [] => p
      | _ :: _ => p ++ 0x2C :: joinComma ps
      end
  end.

(** [JSON.stringify(a)] for an array [a] of strings (no indentation). *)
Definition JSON_stringify (a : list jstring) : jstring :=
  0x5B :: joinComma (QuoteJSONString <$> a) ++ [0x5D].

(** *** [JSON.parse] *)

Definition isJSONWhiteSpace (c : N) : bool :=
  (c =? 0x9) || (c =? 0xA) || (c =? 0xD) || (c =? 0x20).

Fixpoint skipWhiteSpace (s : jstring) : jstring :=
  match s with
  | [] => []
  | c :: s' => if isJSONWhiteSpace c then skipWhiteSpace s' else s
  end.

Definition isDigit (c : N) : bool := (0x30 <=? c) && (c <=? 0x39).

(** The longest prefix of decimal digits, as digit values, and the rest. *)
Fixpoint takeDigits (s : jstring) : list N * jstring :=
  match s with
  | [] => ([], [])
  | c :: s' =>
      if isDigit c then
        let '(ds, rest) := takeDigits s' in (c - 0x30 :: ds, rest)
      else ([], s)
  end.

Definition hexValue (c : N) : option N :=
  if isDigit c then Some (c - 0x30)
  else if (0x61 <=? c) && (c <=? 0x66) then Some (c - 0x57)
  else if (0x41 <=? c) && (c <=? 0x46) then Some (c - 0x37)
  else None.

Definition hex4 (h1 h2 h3 h4 : N) : option N :=
  d1 ← hexValue h1; d2 ← hexValue h2; d3 ← hexValue h3; d4 ← hexValue h4;
  Some (((d1 * 16 + d2) * 16 + d3) * 16 + d4).

(** The character an escape [\e] stands for, [\u] apart. *)
Definition simpleEscape (e : N) : option N :=
  if e =? 0x22 then Some 0x22
  else if e =? 0x5C then Some 0x5C
  else if e =? 0x2F then Some 0x2F
  else if e =? 0x62 then Some 0x8
  else if e =? 0x66 then Some 0xC
  else if e =? 0x6E then Some 0xA
  else if e =? 0x72 then Some 0xD
  else if e =? 0x74 then Some 0x9
  else None.

(** The characters of a string literal after its opening quote, up to and
    including the closing quote. *)
Fixpoint parseChars (s : jstring) : option (jstring * jstring) :=
  match s with
  | [] => None
  | c :: s' =>
      if c =? 0x22 then Some ([], s')
      else if c =? 0x5C then
        match s' with
        | [] => None
        | e :: s'' =>
            if e =? 0x75 then
              match s'' with
              | h1 :: h2 :: h3 :: h4 :: s3 =>
                  match hex4 h1 h2 h3 h4 with
                  | Some u =>
                      match parseChars s3 with
                      | Some (cs, rest) => Some (u :: cs, rest)
                      | None => None
                      end
                  | None => None
                  end
              | _ => None
              end
            else
              match simpleEscape e with
              | Some u =>
                  match parseChars s'' with
                  | Some (cs, rest) => Some (u :: cs, rest)
                  | None => None
                  end
              | None => None
              end
        end
      else if c <? 0x20 then None
      else
        match parseChars s' with
        | Some (cs, rest) => Some (c :: cs, rest)
        | None => None
        end
  end.

(** A number: an optional minus sign; an integer part, either a single zero
    or digits that start with a nonzero one; an optional fraction, a point
    and one digit or more; an optional exponent, [e] or [E], an optional
    sign, one digit or more. *)
Definition parseExponent (s : jstring) : option (Z * jstring) :=
  match s with
  | e :: s1 =>
      if (e =? 0x65) || (e =? 0x45) then
        let '(neg, s2) :=
          match s1 with
          | sg :: s2 =>
              if sg =? 0x2D then (true, s2)
              else if sg =? 0x2B then (false, s2)
              else (false, s1)
          | [] => (false, s1)
          end in
        match takeDigits s2 with
        | ([], _) => None
        | (ds, rest) =>
            let v := Z.of_N (digitsValue ds) in
            Some (if neg then (- v)%Z else v, rest)
        end
      else Some (0%Z, s)
  | [] => Some (0%Z, s)
  end.

Definition parseFraction (s : jstring) : option (list N * jstring) :=
  match s with
  | p :: s1 =>
      if p =? 0x2E then
        match takeDigits s1 with
        | ([], _) => None
        | (ds, rest) => Some (ds, rest)
        end
      else Some ([], s)
  | [] => Some ([], s)
  end.

Definition parseInteger (s : jstring) : option (list N * jstring) :=
  match s with
  | c :: s1 =>
      if c =? 0x30 then Some ([0], s1)
      else if isDigit c then Some (takeDigits s)
      else None
  | [] => None
  end.

Definition parseNumber (s : jstring) : option (JSONNumber * jstring) :=
  let '(neg, s1) :=
    match s with
    | m :: s1 => if m =? 0x2D then (true, s1) else (false, s)
    | [] => (false, s)
    end in
  '(ids, s2) ← parseInteger s1;
  '(fds, s3) ← parseFraction s2;
  '(ex, s4) ← parseExponent s3;
  Some ({| negative := neg; intDigits := ids; fracDigits := fds;
           exponent := ex |}, s4).

(** [stripPrefix p s]: what follows [p] in [s], when [s] starts with [p]. *)
Fixpoint stripPrefix (p s : jstring) : option jstring :=
  match p, s with
  | [], _ => Some s
  | a :: p', b :: s' => if a =? b then stripPrefix p' s' else None
  | _ :: _, [] => None
  end.

(** Recursive descent on values.  Every call spends one unit of [fuel]. *)
Fixpoint parseValue (fuel : nat) (s : jstring) : option (json * jstring) :=
  match fuel with
  | O => None
  | S fuel' =>
      match skipWhiteSpace s with
      | [] => None
      | c :: s' =>
          if c =? 0x22 then
            '(cs, rest) ← parseChars s'; Some (JString cs, rest)
          else if c =? 0x5B then
            match skipWhiteSpace s' with
            | d :: s'' =>
                if d =? 0x5D then Some (JArray [], s'')
                else '(vs, rest) ← parseElements fuel' (d :: s'');
                     Some (JArray vs, rest)
            | [] => None
            end
          else if c =? 0x7B then
            match skipWhiteSpace s' with
            | d :: s'' =>
                if d =? 0x7D then Some (JObject [], s'')
                else '(ms, rest) ← parseMembers fuel' (d :: s'');
                     Some (JObject ms, rest)
            | [] => None
            end
          else if c =? 0x6E then
            rest ← stripPrefix (js "ull") s'; Some (JNull, rest)
          else if c =? 0x74 then
            rest ← stripPrefix (js "rue") s'; Some (JBool true, rest)
          else if c =? 0x66 then
            rest ← stripPrefix (js "alse") s'; Some (JBool false, rest)
          else
            '(n, rest) ← parseNumber (c :: s'); Some (JNumber n, rest)
      end
  end
with parseElements (fuel : nat) (s : jstring) : option (list json * jstring) :=
  match fuel with
  | O => None
  | S fuel' =>
      '(v, s1) ← parseValue fuel' s;
      match skipWhiteSpace s1 with
      | c :: s2 =>
          if c =? 0x5D then Some ([v], s2)
          else if c =? 0x2C then
            '(vs, rest) ← parseElements fuel' s2; Some (v :: vs, rest)
          else None
      | [] => None
      end
  end
with parseMembers (fuel : nat) (s : jstring)
  : option (list (jstring * json) * jstring) :=
  match fuel with
  | O => None
  | S fuel' =>
      match skipWhiteSpace s with
      | q :: s0 =>
          if q =? 0x22 then
            '(k, s1) ← parseChars s0;
            match skipWhiteSpace s1 with
            | colon :: s2 =>
                if colon =? 0x3A then
                  '(v, s3) ← parseValue fuel' s2;
                  match skipWhiteSpace s3 with
                  | c :: s4 =>
                      if c =? 0x7D then Some ([(k, v)], s4)
                      else if c =? 0x2C then
                        '(ms, rest) ← parseMembers fuel' s4;
                        Some ((k, v) :: ms, rest)
                      else None
                  | [] => None
                  end
                else None
            | [] => None
            end
          else None
      | [] => None
      end
  end.

(** [JSON.parse(text)]: [None] stands for the [SyntaxError] it throws.  The
    fuel is twice the length of the text and two more, which is enough for
    whatever the parser can read of it ([parseValue_fuel_enough] below). *)
Definition JSON_parse (text : jstring) : option json :=
  match parseValue (2 * length text + 2) text with
  | Some (v, rest) =>
      match skipWhiteSpace rest with
      | [] => Some v
      | _ :: _ => None
      end
  | None => None
  end.

(** ** The dictionary entry, as [displayWordInfo] reads it *)

Record Phonetic := {
  audio : option jstring
}.

Record DefinitionItem := {
  definition : option jstring;
  example : option jstring
}.

Record Meaning := {
  partOfSpeech : option jstring;
  definitions : option (list DefinitionItem)
}.

Record DictionaryEntry := {
  word : option jstring;
  phonetic : option jstring;
  phonetics : option (list Phonetic);
  meanings : option (list Meaning)
}.

(** ToBoolean on strings: only the empty string is falsy. *)
Definition nonEmpty (s : jstring) : bool :=
  match s with
  | [] => false
  | _ :: _ => true
  end.

(** ToBoolean on an optional string; [undefined] is falsy. *)
Definition truthyString (x : option jstring) : bool :=
  match x with
  | Some s => nonEmpty s
  | None => false
  end.

(** [x || d] for an optional string [x]. *)
Definition orElse (x : option jstring) (d : jstring) : jstring :=
  match x with
  | Some s => if nonEmpty s then s else d
  | None => d
  end.

(** ToString of an optional string inside a template literal. *)
Definition interpolate (x : option jstring) : jstring :=
  match x with
  | Some s => s
  | None => js "undefined"
  end.

(** ** Part-of-speech icons *)

(** The own properties of the object literal [iconMap]. *)
Definition iconMap : gmap jstring jstring :=
  list_to_map
    [ (js "noun", js "fas fa-landmark");
      (js "verb", js "fas fa-running");
      (js "adjective", js "fas fa-adjust");
      (js "adverb", js "fas fa-bolt");
      (js "pronoun", js "fas fa-user");
      (js "preposition", js "fas fa-arrows-alt");
      (js "conjunction", js "fas fa-link");
      (js "interjection", js "fas fa-exclamation") ].

(** [iconMap] is an object literal, so its prototype is [Object.prototype]:
    a property it does not own is looked up there.  These are the names
    [Object.prototype] defines; each holds a function, and the accessor
    [__proto__] returns the prototype object itself. *)
Definition Object_prototype_names : list jstring :=
  [ js "constructor"; js "hasOwnProperty"; js "isPrototypeOf";
    js "propertyIsEnumerable"; js "toLocaleString"; js "toString";
    js "valueOf"; js "__proto__"; js "__defineGetter__";
    js "__defineSetter__"; js "__lookupGetter__"; js "__lookupSetter__" ].

(** What a property read on [iconMap] can produce. *)
Inductive IconValue :=
| IconClass (name : jstring)
| Inherited (property : jstring)
| Undefined.

(** [iconMap[pos]]: own property first, then the prototype chain. *)
Definition iconMap_get (pos : jstring) : IconValue :=
  match iconMap !! pos with
  | Some icon => IconClass icon
  | None =>
      if bool_decide (pos ∈ Object_prototype_names) then Inherited pos
      else Undefined
  end.

(** ToBoolean on such a value: inherited members are functions or objects,
    which are truthy. *)
Definition iconTruthy (v : IconValue) : bool :=
  match v with
  | IconClass name => nonEmpty name
  | Inherited _ => true
  | Undefined => false
  end.

(** [return iconMap[pos] || 'fas fa-font'] *)
Definition getPartOfSpeechIcon (pos : jstring) : IconValue :=
  let v := iconMap_get pos in
  if iconTruthy v then v else IconClass (js "fas fa-font").

(** ** Views *)

(** The values interpolated into the result template. *)
Record ResultMarkup := {
  wordTitle : jstring;
  phoneticText : jstring;
  (** [Some url]: enabled button playing [url]; [None]: disabled button *)
  audioButton : option jstring;
  posIcon : IconValue;
  posText : jstring;
  meaningText : jstring;
  exampleClass : jstring;
  exampleText : jstring
}.

(** What [resultSection.innerHTML] holds. *)
Inductive View :=
| WelcomeView
| LoadingView
| ResultView (r : ResultMarkup)
| ErrorView (message : jstring).

(** What [historyList.innerHTML] holds. *)
Inductive HistoryMarkup :=
| NoRecentSearches
| HistoryItems (items : list jstring).

(** ** Program state *)

Record State := {
  wordInput : jstring;
  resultSection : View;
  historyList : HistoryMarkup;
  searchHistory : list jstring;
  localStorage : gmap jstring jstring;
  (** URLs passed to [fetch], most recent first *)
  requests : list jstring
}.

Definition set_resultSection (v : View) (st : State) : State :=
  {| wordInput := wordInput st; resultSection := v;
     historyList := historyList st; searchHistory := searchHistory st;
     localStorage := localStorage st; requests := requests st |}.

Definition log_request (url : jstring) (st : State) : State :=
  {| wordInput := wordInput st; resultSection := resultSection st;
     historyList := historyList st; searchHistory := searchHistory st;
     localStorage := localStorage st; requests := url :: requests st |}.

(** How a block of statements completes. *)
Inductive Completion :=
| Normal (st : State)
| Throw (e : exn) (st : State).

(** ** History store *)

Definition historyKey : jstring := js "dictionaryHistory".

(** Line 12: [JSON.parse(localStorage.getItem('dictionaryHistory')) || []].
    [getItem] returns [null] for a missing key, and [JSON.parse] converts
    its argument to a string first. *)
Inductive LoadResult :=
| LoadThrows (e : exn)
| Loaded (value : json).

Definition load_searchHistory (E : Engine) (storage : gmap jstring jstring)
  : LoadResult :=
  let text :=
    match storage !! historyKey with
    | Some stored => stored
    | None => js "null"
    end in
  match JSON_parse text with
  | None => LoadThrows (SyntaxError (syntaxErrorMessage E text))
  | Some v => Loaded (if truthy v then v else JArray [])
  end.

(** The array value of a history. *)
Definition historyValue (h : list jstring) : json := JArray (JString <$> h).

(** [a.pop()] on arrays: drop the last element. *)
Definition pop (a : list jstring) : list jstring := removelast a.

Definition displaySearchHistory (st : State) : State :=
  let markup :=
    if bool_decide (length (searchHistory st) = 0%nat) then NoRecentSearches
    else HistoryItems (searchHistory st) in
  {| wordInput := wordInput st; resultSection := resultSection st;
     historyList := markup; searchHistory := searchHistory st;
     localStorage := localStorage st; requests := requests st |}.

Definition addToSearchHistory (w : jstring) (st : State) : State :=
  (* Remove if already exists *)
  let h1 := filter (fun item => item <> w) (searchHistory st) in
  (* Add to beginning *)
  let h2 := w :: h1 in
  (* Keep only last 5 searches *)
  let h3 := if bool_decide (5 < length h2)%nat then pop h2 else h2 in
  (* Save to localStorage *)
  let storage := <[historyKey := JSON_stringify h3]> (localStorage st) in
  (* Update display *)
  displaySearchHistory
    {| wordInput := wordInput st; resultSection := resultSection st;
       historyList := historyList st; searchHistory := h3;
       localStorage := storage; requests := requests st |}.

(** A run of [addToSearchHistory] calls, in the order of the list. *)
Definition recordAll (ws : list jstring) (st : State) : State :=
  foldl (fun s w => addToSearchHistory w s) st ws.

(** ** Result renderer *)

Definition showError (msg : jstring) (st : State) : State :=
  set_resultSection (ErrorView msg) st.

Definition showWelcomeMessage (st : State) : State :=
  set_resultSection WelcomeView st.

(** [wordData] is [data[0]]: [None] is [undefined], which the destructuring
    pattern of the first statement rejects with a [TypeError]. *)
Definition displayWordInfo (E : Engine) (wordData : option DictionaryEntry)
    (st : State) : Completion :=
  match wordData with
  | None => Throw (TypeError (destructureErrorMessage E)) st
  | Some wd =>
      (* Get phonetic pronunciation *)
      let phoneticText := orElse (phonetic wd) (js "Not available") in
      (* Get audio URL if available *)
      let audioUrl : option jstring :=
        match phonetics wd with
        | Some ps =>
            if bool_decide (0 < length ps)%nat then
              match List.find (fun p => truthyString (audio p)) ps with
              | Some audioPhonetic => audio audioPhonetic
              | None => None
              end
            else None
        | None => None
        end in
      (* Get first meaning and example *)
      let '(pos, def, ex) :=
        match meanings wd with
        | Some (firstMeaning :: _) =>
            let pos := orElse (partOfSpeech firstMeaning) [] in
            match definitions firstMeaning with
            | Some (firstDefinition :: _) =>
                (pos, orElse (definition firstDefinition) [],
                 orElse (example firstDefinition) [])
            | _ => (pos, [], [])
            end
        | _ => ([], [], [])
        end in
      (* Determine icon for part of speech *)
      let icon := getPartOfSpeechIcon pos in
      Normal (set_resultSection (ResultView {|
        wordTitle := interpolate (word wd);
        phoneticText := phoneticText;
        audioButton := audioUrl;
        posIcon := icon;
        posText :=
          if nonEmpty pos then toUpperCase E (charAt0 pos) ++ slice1 pos
          else js "Not specified";
        meaningText := orElse (Some def) (js "Definition not available");
        exampleClass :=
          if nonEmpty ex then js "example"
          else js "example-not-available";
        exampleText :=
          if nonEmpty ex then dquote ++ ex ++ dquote
          else js "Example not available"
      |}) st)
  end.

(** ** Dictionary client and interaction controller *)

Definition API_BASE_URL : jstring :=
  js "https://api.dictionaryapi.dev/api/v2/entries/en/".

(** What [response.json()] settles to: a rejection, or the parsed body, an
    array of entries. *)
Inductive Body :=
| BodyRejected (e : exn)
| BodyData (data : list DictionaryEntry).

(** What [fetch(url)] settles to: a rejection (network-level failure), or a
    response with its status and body. *)
Inductive FetchOutcome :=
| FetchRejected (e : exn)
| FetchResponse (status : N) (body : Body).

(** [response.ok]: the status is in the range 200-299. *)
Definition ok (status : N) : bool := (200 <=? status) && (status <=? 299).

(** The [try] block of [performSearch]. *)
Definition performSearch_try (E : Engine) (fetch : jstring -> FetchOutcome)
    (w : jstring) (st : State) : Completion :=
  (* Make API request *)
  let url := API_BASE_URL ++ w in
  let st := log_request url st in
  match fetch url with
  | FetchRejected e => Throw e st
  | FetchResponse status body =>
      if negb (ok status) then
        if status =? 404 then Throw (Error (js "Word not found")) st
        else Throw (Error (js "API request failed")) st
      else
        match body with
        | BodyRejected e => Throw e st
        | BodyData data =>
            (* Display the word information *)
            match displayWordInfo E (data !! 0%nat) st with
            | Throw e st' => Throw e st'
            | Normal st' =>
                (* Add to search history *)
                Normal (addToSearchHistory w st')
            end
        end
  end.

Definition performSearch (E : Engine) (fetch : jstring -> FetchOutcome)
    (st : State) : State :=
  let w := toLowerCase E (trim (wordInput st)) in
  (* Validate input *)
  if negb (nonEmpty w) then
    showError (js "Please enter a word to search.") st
  else
    (* Clear previous results *)
    let st := set_resultSection LoadingView st in
    match performSearch_try E fetch w st with
    | Normal st' => st'
    | Throw error st' =>
        (* [console.error] is not modelled *)
        if bool_decide (message error = js "Word not found") then
          showError (dquote ++ w ++ dquote
                       ++ js " not found. Please try another word.") st'
        else
          showError (js "Something went wrong. Please try again later.") st'
    end.

(** The state of a page that starts with history [h] and input text
    [input], before any search. *)
Definition startState (h : list jstring) (input : jstring) : State :=
  displaySearchHistory
    {| wordInput := input; resultSection := WelcomeView;
       historyList := NoRecentSearches; searchHistory := h;
       localStorage := ∅; requests := [] |}.

(** The state when the script starts with an empty history. *)
Definition emptyState : State := startState [] [].

(** [meanings[0].definitions[0]] of an entry, when both sequences are there
    and not empty. *)
Definition firstDefinitionOf (wd : DictionaryEntry) : option DefinitionItem :=
  ms ← meanings wd; m ← head ms; ds ← definitions m; head ds.

(** ** Example entries *)

(** The entry of the scenario of the specification (phonetic in ASCII). *)
Definition helloEntry : DictionaryEntry := {|
  word := Some (js "hello");
  phonetic := Some (js "/hello/");
  phonetics := Some [];
  meanings := Some [ {|
    partOfSpeech := Some (js "exclamation");
    definitions := Some [ {|
      definition := Some (js "used as a greeting");
      example := Some (js "hello there!") |} ] |} ]
|}.

(** An entry whose first definition carries an empty definition text and an
    empty example. *)
Definition emptyDefinitionEntry : DictionaryEntry := {|
  word := Some (js "hello");
  phonetic := None;
  phonetics := Some [];
  meanings := Some [ {|
    partOfSpeech := Some (js "noun");
    definitions := Some [ {|
      definition := Some [];
      example := Some [] |} ] |} ]
|}.

(** ** Event handlers *)

(** [wordInput.value = v], by the script or by the user typing. *)
Definition set_wordInput (v : jstring) (st : State) : State :=
  {| wordInput := v; resultSection := resultSection st;
     historyList := historyList st; searchHistory := searchHistory st;
     localStorage := localStorage st; requests := requests st |}.

(** The click handler of a suggestion tag (in [initApp] and in
    [showWelcomeMessage]) and of a history item (in [displaySearchHistory]),
    three copies of one body: the [data-word] attribute of the element goes
    into the input field, then [performSearch] runs. *)
Definition tagClick (E : Engine) (fetch : jstring -> FetchOutcome)
    (dataWord : jstring) (st : State) : State :=
  performSearch E fetch (set_wordInput dataWord st).

(** The [keypress] handler of the input field. *)
Definition keypressHandler (E : Engine) (fetch : jstring -> FetchOutcome)
    (key : jstring) (st : State) : State :=
  if bool_decide (key = js "Enter") then performSearch E fetch st else st.

(** The click handler of the button of the error view ([wordInput.focus()]
    leaves the state as it is). *)
Definition tryAgainClick (st : State) : State :=
  showWelcomeMessage (set_wordInput [] st).

(** What can happen to the page.  An event that starts a search carries the
    behaviour of the network during that search. *)
Inductive Event :=
| Typed (text : jstring)
| SearchClick (fetch : jstring -> FetchOutcome)
| KeyPress (key : jstring) (fetch : jstring -> FetchOutcome)
| TagClick (dataWord : jstring) (fetch : jstring -> FetchOutcome)
| TryAgainClick.

Definition handle (E : Engine) (ev : Event) (st : State) : State :=
  match ev with
  | Typed text => set_wordInput text st
  | SearchClick fetch => performSearch E fetch st
  | KeyPress key fetch => keypressHandler E fetch key st
  | TagClick dataWord fetch => tagClick E fetch dataWord st
  | TryAgainClick => tryAgainClick st
  end.

(** The events of a list handled in turn, each to completion. *)
Definition run (E : Engine) (evs : list Event) (st : State) : State :=
  foldl (fun s ev => handle E ev s) st evs.

(** ** Vocabulary of the further properties *)

(** The values [displayWordInfo] puts in the template for an entry: the body
    of that function without the assignment to [resultSection.innerHTML]. *)
Definition renderEntry (E : Engine) (wd : DictionaryEntry) : ResultMarkup :=
  let phoneticText := orElse (phonetic wd) (js "Not available") in
  let audioUrl : option jstring :=
    match phonetics wd with
    | Some ps =>
        if bool_decide (0 < length ps)%nat then
          match List.find (fun p => truthyString (audio p)) ps with
          | Some audioPhonetic => audio audioPhonetic
          | None => None
          end
        else None
    | None => None
    end in
  let '(pos, def, ex) :=
    match meanings wd with
    | Some (firstMeaning :: _) =>
        let pos := orElse (partOfSpeech firstMeaning) [] in
        match definitions firstMeaning with
        | Some (firstDefinition :: _) =>
            (pos, orElse (definition firstDefinition) [],
             orElse (example firstDefinition) [])
        | _ => (pos, [], [])
        end
    | _ => ([], [], [])
    end in
  let icon := getPartOfSpeechIcon pos in
  {| wordTitle := interpolate (word wd);
     phoneticText := phoneticText;
     audioButton := audioUrl;
     posIcon := icon;
     posText :=
       if nonEmpty pos then toUpperCase E (charAt0 pos) ++ slice1 pos
       else js "Not specified";
     meaningText := orElse (Some def) (js "Definition not available");
     exampleClass :=
       if nonEmpty ex then js "example" else js "example-not-available";
     exampleText :=
       if nonEmpty ex then dquote ++ ex ++ dquote
       else js "Example not available" |}.

(** An entry cut down to its first meaning, and that meaning to its first
    definition. *)
Definition firstSense (wd : DictionaryEntry) : DictionaryEntry :=
  {| word := word wd; phonetic := phonetic wd; phonetics := phonetics wd;
     meanings :=
       match meanings wd with
       | Some (m :: _) =>
           Some [ {| partOfSpeech := partOfSpeech m;
                     definitions :=
                       match definitions m with
                       | Some (d :: _) => Some [d]
                       | other => other
                       end |} ]
       | other => other
       end |}.

(** The message the [catch] block of [performSearch] shows for an error
    thrown while searching [w]. *)
Definition handlerMessage (w : jstring) (error : exn) : jstring :=
  if bool_decide (message error = js "Word not found") then
    dquote ++ w ++ dquote ++ js " not found. Please try another word."
  else js "Something went wrong. Please try again later.".

(** What [displaySearchHistory] shows for a history. *)
Definition historyMarkup (h : list jstring) : HistoryMarkup :=
  if bool_decide (length h = 0%nat) then NoRecentSearches else HistoryItems h.

(** A state is consistent when its history holds at most five words, no word
    twice, the history list on the page shows it, and a reload of the page
    would start from it. *)
Definition consistent (E : Engine) (st : State) : Prop :=
  (length (searchHistory st) <= 5)%nat
  /\ NoDup (searchHistory st)
  /\ historyList st = historyMarkup (searchHistory st)
  /\ load_searchHistory E (localStorage st)
     = Loaded (historyValue (searchHistory st)).

(** * Properties *)

(** ** Strings *)

Lemma trimStart_whitespace (s : jstring) :
  Forall (fun c => isWhiteSpace c = true) s -> trimStart s = [].
Proof.
  induction 1 as [|c s Hc _ IH]; simpl; [reflexivity|].
  rewrite Hc. exact IH.
Qed.

Lemma trim_whitespace (s : jstring) :
  Forall (fun c => isWhiteSpace c = true) s -> trim s = [].
Proof.
  intros H. unfold trim, trimEnd.
  rewrite (trimStart_whitespace s H). reflexivity.
Qed.

(** ** JSON: parsing what [JSON.stringify] wrote *)

Lemma hexValue_hexDigit (d : N) : d < 16 -> hexValue (hexDigit d) = Some d.
Proof.
  intros H.
  assert (Hd : d = 0 \/ d = 1 \/ d = 2 \/ d = 3 \/ d = 4 \/ d = 5 \/ d = 6
               \/ d = 7 \/ d = 8 \/ d = 9 \/ d = 10 \/ d = 11 \/ d = 12
               \/ d = 13 \/ d = 14 \/ d = 15) by lia.
  repeat (destruct Hd as [-> | Hd]; [reflexivity|]).
  subst d. reflexivity.
Qed.

Lemma hex4_UnicodeEscape (c : N) :
  c < 65536 ->
  hex4 (hexDigit (c / 4096)) (hexDigit ((c / 256) mod 16))
       (hexDigit ((c / 16) mod 16)) (hexDigit (c mod 16)) = Some c.
Proof.
  intros H. unfold hex4.
  assert (H1 : c / 4096 < 16) by (apply N.Div0.div_lt_upper_bound; lia).
  assert (H2 : (c / 256) mod 16 < 16) by (apply N.mod_lt; lia).
  assert (H3 : (c / 16) mod 16 < 16) by (apply N.mod_lt; lia).
  assert (H4 : c mod 16 < 16) by (apply N.mod_lt; lia).
  rewrite !hexValue_hexDigit by assumption.
  simpl. f_equal.
  rewrite (N.div_mod c 16) at 5 by lia.
  rewrite (N.div_mod (c / 16) 16) at 2 by lia.
  rewrite (N.div_mod (c / 16 / 16) 16) at 1 by lia.
  rewrite !N.Div0.div_div.
  change (16 * (16 * 16)) with 4096. change (16 * 16) with 256.
  generalize (c / 4096) ((c / 256) mod 16) ((c / 16) mod 16) (c mod 16).
  intros; lia.
Qed.

Lemma parseChars_UnicodeEscape (c : N) (s : jstring) :
  c < 65536 ->
  parseChars (UnicodeEscape c ++ s) =
    match parseChars s with
    | Some (cs, rest) => Some (c :: cs, rest)
    | None => None
    end.
Proof.
  intros H. unfold UnicodeEscape. cbn [app parseChars].
  change (0x5C =? 0x22) with false. change (0x5C =? 0x5C) with true.
  change (0x75 =? 0x75) with true. cbv iota.
  rewrite hex4_UnicodeEscape by exact H. reflexivity.
Qed.

Lemma parseChars_literal (c : N) (s : jstring) :
  c <> 0x22 -> c <> 0x5C -> 0x20 <= c ->
  parseChars (c :: s) =
    match parseChars s with
    | Some (cs, rest) => Some (c :: cs, rest)
    | None => None
    end.
Proof.
  intros H1 H2 H3. cbn [parseChars].
  apply N.eqb_neq in H1, H2. apply N.ltb_ge in H3.
  rewrite H1, H2, H3. reflexivity.
Qed.

Ltac step_quoteChars IH :=
  cbn [quoteChars app parseChars];
  repeat match goal with
         | |- context [?a =? ?b] =>
             first [ change (a =? b) with true | change (a =? b) with false ]
         end;
  cbv iota; cbn [simpleEscape];
  repeat match goal with
         | |- context [?a =? ?b] =>
             first [ change (a =? b) with true | change (a =? b) with false ]
         end;
  cbv iota; rewrite ?IH by (simpl; lia); try reflexivity.

Lemma parseChars_quoteChars (s rest : jstring) :
  parseChars (quoteChars s ++ 0x22 :: rest) = Some (s, rest).
Proof.
  remember (length s) as n eqn:Hn. revert s Hn.
  induction n as [n IH] using lt_wf_ind. intros s Hn.
  assert (IH' : forall t, (length t < length s)%nat ->
                  parseChars (quoteChars t ++ 0x22 :: rest) = Some (t, rest)).
  { intros t Ht. apply (IH (length t)); [lia | reflexivity]. }
  clear IH Hn n.
  destruct s as [|c s']; [reflexivity|].
  cbn [quoteChars].
  destruct (N.eqb_spec c 0x8) as [-> | H8]; [step_quoteChars IH'|].
  destruct (N.eqb_spec c 0x9) as [-> | H9]; [step_quoteChars IH'|].
  destruct (N.eqb_spec c 0xA) as [-> | HA]; [step_quoteChars IH'|].
  destruct (N.eqb_spec c 0xC) as [-> | HC]; [step_quoteChars IH'|].
  destruct (N.eqb_spec c 0xD) as [-> | HD]; [step_quoteChars IH'|].
  destruct (N.eqb_spec c 0x22) as [-> | H22]; [step_quoteChars IH'|].
  destruct (N.eqb_spec c 0x5C) as [-> | H5C]; [step_quoteChars IH'|].
  destruct (N.ltb_spec c 0x20) as [Hlt | Hge].
  { rewrite <- app_assoc, parseChars_UnicodeEscape by lia.
    rewrite IH' by (simpl; lia). reflexivity. }
  unfold isLeadingSurrogate, isTrailingSurrogate.
  destruct (N.leb_spec 0xD800 c) as [Hlo | Hlo]; cbn [andb].
  - destruct (N.leb_spec c 0xDBFF) as [Hhi | Hhi].
    + destruct s' as [|d s''].
      * rewrite <- app_assoc, parseChars_UnicodeEscape by lia.
        reflexivity.
      * destruct (N.leb_spec 0xDC00 d) as [Hdlo | Hdlo]; cbn [andb].
        -- destruct (N.leb_spec d 0xDFFF) as [Hdhi | Hdhi].
           ++ cbn [app].
              rewrite !parseChars_literal by lia.
              rewrite IH' by (simpl; lia). reflexivity.
           ++ rewrite <- app_assoc, parseChars_UnicodeEscape by lia.
              rewrite IH' by (simpl; lia). reflexivity.
        -- rewrite <- app_assoc, parseChars_UnicodeEscape by lia.
           rewrite IH' by (simpl; lia). reflexivity.
    + destruct (N.leb_spec 0xDC00 c) as [Htlo | Htlo]; cbn [andb]; [|lia].
      destruct (N.leb_spec c 0xDFFF) as [Hthi | Hthi].
      * rewrite <- app_assoc, parseChars_UnicodeEscape by lia.
        rewrite IH' by (simpl; lia). reflexivity.
      * cbn [app]. rewrite parseChars_literal by lia.
        rewrite IH' by (simpl; lia). reflexivity.
  - destruct (N.leb_spec 0xDC00 c) as [Htlo | Htlo]; cbn [andb]; [lia|].
    cbn [app]. rewrite parseChars_literal by lia.
    rewrite IH' by (simpl; lia). reflexivity.
Qed.

Lemma QuoteJSONString_app (s rest : jstring) :
  QuoteJSONString s ++ rest = 0x22 :: quoteChars s ++ 0x22 :: rest.
Proof. unfold QuoteJSONString. cbn [app]. rewrite <- app_assoc. reflexivity. Qed.

Lemma parseValue_QuoteJSONString (f : nat) (s rest : jstring) :
  parseValue (S f) (QuoteJSONString s ++ rest) = Some (JString s, rest).
Proof.
  rewrite QuoteJSONString_app. cbn [parseValue skipWhiteSpace].
  change (isJSONWhiteSpace 0x22) with false. cbv iota.
  change (0x22 =? 0x22) with true. cbv iota.
  rewrite parseChars_quoteChars. reflexivity.
Qed.

Lemma joinComma_cons_cons (p q : jstring) (ps : list jstring) :
  joinComma (p :: q :: ps) = p ++ 0x2C :: joinComma (q :: ps).
Proof. reflexivity. Qed.

Lemma parseElements_S (f : nat) (s : jstring) :
  parseElements (S f) s =
    '(v, s1) ← parseValue f s;
    match skipWhiteSpace s1 with
    | c :: s2 =>
        if c =? 0x5D then Some ([v], s2)
        else if c =? 0x2C then
          '(vs, rest) ← parseElements f s2; Some (v :: vs, rest)
        else None
    | [] => None
    end.
Proof. reflexivity. Qed.

Lemma parseElements_strings (h : list jstring) :
  forall (a : jstring) (f : nat) (rest : jstring),
    (length h + 2 <= f)%nat ->
    parseElements f (joinComma (QuoteJSONString <$> (a :: h)) ++ 0x5D :: rest)
    = Some (JString <$> (a :: h), rest).
Proof.
  induction h as [|b h IH]; intros a f rest Hf;
    (destruct f as [|[|f]]; [simpl in Hf; lia ..|]);
    rewrite parseElements_S.
  - cbn [fmap list_fmap joinComma].
    rewrite parseValue_QuoteJSONString. reflexivity.
  - rewrite fmap_cons, (fmap_cons _ b), joinComma_cons_cons, <- fmap_cons.
    rewrite <- app_assoc.
    rewrite parseValue_QuoteJSONString.
    cbn [app mbind option_bind skipWhiteSpace].
    change (isJSONWhiteSpace 0x2C) with false. cbv iota.
    change (0x2C =? 0x5D) with false. change (0x2C =? 0x2C) with true.
    cbv iota.
    rewrite IH by (simpl in Hf; lia). reflexivity.
Qed.

Lemma length_joinComma_quoted (h : list jstring) :
  (length h <= length (joinComma (QuoteJSONString <$> h)))%nat.
Proof.
  induction h as [|a [|b h] IH]; [simpl; lia | simpl; lia |].
  rewrite fmap_cons, (fmap_cons _ b), joinComma_cons_cons, <- fmap_cons.
  rewrite length_app. cbn [length] in *.
  unfold QuoteJSONString at 1. cbn [length]. lia.
Qed.

Lemma joinComma_quoted_head (a : jstring) (h : list jstring) :
  exists tl, joinComma (QuoteJSONString <$> (a :: h)) = 0x22 :: tl.
Proof.
  destruct h as [|b h].
  - eexists. reflexivity.
  - rewrite fmap_cons, (fmap_cons _ b), joinComma_cons_cons.
    eexists. reflexivity.
Qed.

Lemma parseValue_array_strings (a : jstring) (h : list jstring) (f : nat)
    (rest : jstring) :
  (length h + 2 <= f)%nat ->
  parseValue (S f)
    (0x5B :: joinComma (QuoteJSONString <$> (a :: h)) ++ 0x5D :: rest)
  = Some (JArray (JString <$> (a :: h)), rest).
Proof.
  intros Hf.
  destruct (joinComma_quoted_head a h) as [tl Htl].
  cbn [parseValue skipWhiteSpace].
  change (isJSONWhiteSpace 0x5B) with false. cbv iota.
  change (0x5B =? 0x22) with false. change (0x5B =? 0x5B) with true.
  cbv iota.
  rewrite Htl at 1. cbn [app skipWhiteSpace].
  change (isJSONWhiteSpace 0x22) with false. cbv iota.
  change (0x22 =? 0x5D) with false. cbv iota.
  change (0x22 :: tl ++ 0x5D :: rest) with ((0x22 :: tl) ++ 0x5D :: rest).
  rewrite <- Htl, parseElements_strings by exact Hf.
  reflexivity.
Qed.

(** Parsing the text [JSON.stringify] writes for an array of strings gives
    that array back. *)
Lemma JSON_parse_stringify (h : list jstring) :
  JSON_parse (JSON_stringify h) = Some (historyValue h).
Proof.
  unfold JSON_parse, historyValue.
  destruct h as [|a h]; [reflexivity|].
  assert (Hlen := length_joinComma_quoted (a :: h)).
  unfold JSON_stringify.
  set (body := joinComma (QuoteJSONString <$> (a :: h))) in *.
  set (text := 0x5B :: body ++ [0x5D]).
  assert (Hf : exists f, (2 * length text + 2)%nat = S f
                         /\ (length h + 2 <= f)%nat).
  { exists (2 * length text + 1)%nat. split; [lia|].
    subst text. cbn [length] in *. rewrite length_app. cbn [length]. lia. }
  destruct Hf as (f & -> & Hf). subst text body.
  rewrite parseValue_array_strings by exact Hf.
  reflexivity.
Qed.

(** ** JSON: the fuel of the parser is enough *)

Lemma length_skipWhiteSpace (s : jstring) :
  (length (skipWhiteSpace s) <= length s)%nat.
Proof.
  induction s as [|c s IH]; simpl; [lia|].
  destruct (isJSONWhiteSpace c); simpl; lia.
Qed.

Lemma skipWhiteSpace_cons_length (s s' : jstring) (c : N) :
  skipWhiteSpace s = c :: s' -> (length s' < length s)%nat.
Proof.
  intros H. pose proof (length_skipWhiteSpace s) as Hl.
  rewrite H in Hl. simpl in Hl. lia.
Qed.

Lemma parseChars_length (s : jstring) :
  forall cs rest, parseChars s = Some (cs, rest) ->
    (length rest < length s)%nat.
Proof.
  remember (length s) as n eqn:Hn. revert s Hn.
  induction n as [n IH] using lt_wf_ind. intros s Hn cs rest H.
  assert (IH' : forall t cs' rest', (length t < length s)%nat ->
                  parseChars t = Some (cs', rest') ->
                  (length rest' < length t)%nat).
  { intros t cs' rest' Ht. apply (IH (length t)); [lia | reflexivity]. }
  subst n. clear IH.
  destruct s as [|c s']; [discriminate|]. cbn [parseChars] in H.
  destruct (c =? 0x22).
  { injection H as <- <-. simpl. lia. }
  destruct (c =? 0x5C).
  - destruct s' as [|e s'']; [discriminate|].
    destruct (e =? 0x75).
    + destruct s'' as [|h1 [|h2 [|h3 [|h4 s3]]]]; try discriminate.
      destruct (hex4 h1 h2 h3 h4); [|discriminate].
      destruct (parseChars s3) as [[cs' rest']|] eqn:Hs3; [|discriminate].
      injection H as <- <-.
      apply IH' in Hs3; simpl in *; lia.
    + destruct (simpleEscape e); [|discriminate].
      destruct (parseChars s'') as [[cs' rest']|] eqn:Hs; [|discriminate].
      injection H as <- <-.
      apply IH' in Hs; simpl in *; lia.
  - destruct (c <? 0x20); [discriminate|].
    destruct (parseChars s') as [[cs' rest']|] eqn:Hs; [|discriminate].
    injection H as <- <-.
    apply IH' in Hs; simpl in *; lia.
Qed.

Lemma stripPrefix_length (p s rest : jstring) :
  stripPrefix p s = Some rest -> (length rest <= length s)%nat.
Proof.
  revert s. induction p as [|a p IH]; intros s H; simpl in H.
  - injection H as <-. lia.
  - destruct s as [|b s]; [discriminate|].
    destruct (a =? b); [|discriminate].
    apply IH in H. simpl. lia.
Qed.

Lemma takeDigits_length (s : jstring) :
  (length (takeDigits s).2 <= length s)%nat.
Proof.
  induction s as [|c s IH]; simpl; [lia|].
  destruct (isDigit c); [|simpl; lia].
  destruct (takeDigits s) as [ds rest]. simpl in *. lia.
Qed.

Lemma parseInteger_length (s : jstring) (ds : list N) (rest : jstring) :
  parseInteger s = Some (ds, rest) -> (length rest < length s)%nat.
Proof.
  unfold parseInteger. destruct s as [|c s1]; [discriminate|].
  destruct (c =? 0x30).
  { intros H. injection H as <- <-. simpl. lia. }
  destruct (isDigit c) eqn:Hc; [|discriminate].
  intros H. injection H as H.
  cbn [takeDigits] in H. rewrite Hc in H.
  pose proof (takeDigits_length s1) as Hl.
  destruct (takeDigits s1) as [ds' rest']. injection H as <- <-.
  simpl in *. lia.
Qed.

Lemma parseFraction_length (s : jstring) (ds : list N) (rest : jstring) :
  parseFraction s = Some (ds, rest) -> (length rest <= length s)%nat.
Proof.
  unfold parseFraction. destruct s as [|p s1].
  { intros H. injection H as <- <-. lia. }
  destruct (p =? 0x2E).
  - pose proof (takeDigits_length s1) as Hl.
    destruct (takeDigits s1) as [[|d ds'] rest']; [discriminate|].
    intros H. injection H as <- <-. simpl in *. lia.
  - intros H. injection H as <- <-. lia.
Qed.

Lemma parseExponent_length (s : jstring) (ex : Z) (rest : jstring) :
  parseExponent s = Some (ex, rest) -> (length rest <= length s)%nat.
Proof.
  unfold parseExponent. destruct s as [|e s1].
  { intros H. injection H as <- <-. lia. }
  destruct ((e =? 0x65) || (e =? 0x45)).
  - set (sg := match s1 with
               | [] => (false, s1)
               | sg :: s2 =>
                   if sg =? 0x2D then (true, s2)
                   else if sg =? 0x2B then (false, s2) else (false, s1)
               end).
    assert (Hsg : (length sg.2 <= length s1)%nat).
    { subst sg. destruct s1 as [|c s2]; simpl; [lia|].
      destruct (c =? 0x2D); simpl; [lia|].
      destruct (c =? 0x2B); simpl; lia. }
    destruct sg as [neg s2]. simpl in Hsg.
    pose proof (takeDigits_length s2) as Hl.
    destruct (takeDigits s2) as [[|d ds'] rest']; [discriminate|].
    intros H. injection H as <- <-. simpl in *. lia.
  - intros H. injection H as <- <-. lia.
Qed.

Lemma parseNumber_length (s : jstring) (n : JSONNumber) (rest : jstring) :
  parseNumber s = Some (n, rest) -> (length rest < length s)%nat.
Proof.
  unfold parseNumber.
  set (sg := match s with
             | [] => (false, s)
             | m :: s1 => if m =? 0x2D then (true, s1) else (false, s)
             end).
  assert (Hsg : (length sg.2 <= length s)%nat).
  { subst sg. destruct s as [|m s1]; simpl; [lia|].
    destruct (m =? 0x2D); simpl; lia. }
  destruct sg as [neg s1]. simpl in Hsg.
  destruct (parseInteger s1) as [[ids s2]|] eqn:Hi; [|discriminate].
  apply parseInteger_length in Hi. cbn [mbind option_bind].
  destruct (parseFraction s2) as [[fds s3]|] eqn:Hf; [|discriminate].
  apply parseFraction_length in Hf. cbn [mbind option_bind].
  destruct (parseExponent s3) as [[ex s4]|] eqn:He; [|discriminate].
  apply parseExponent_length in He. cbn [mbind option_bind].
  intros H. injection H as _ <-. lia.
Qed.

Lemma parseValue_S (f : nat) (s : jstring) :
  parseValue (S f) s =
    match skipWhiteSpace s with
    | [] => None
    | c :: s' =>
        if c =? 0x22 then
          '(cs, rest) ← parseChars s'; Some (JString cs, rest)
        else if c =? 0x5B then
          match skipWhiteSpace s' with
          | d :: s'' =>
              if d =? 0x5D then Some (JArray [], s'')
              else '(vs, rest) ← parseElements f (d :: s'');
                   Some (JArray vs, rest)
          | [] => None
          end
        else if c =? 0x7B then
          match skipWhiteSpace s' with
          | d :: s'' =>
              if d =? 0x7D then Some (JObject [], s'')
              else '(ms, rest) ← parseMembers f (d :: s'');
                   Some (JObject ms, rest)
          | [] => None
          end
        else if c =? 0x6E then
          rest ← stripPrefix (js "ull") s'; Some (JNull, rest)
        else if c =? 0x74 then
          rest ← stripPrefix (js "rue") s'; Some (JBool true, rest)
        else if c =? 0x66 then
          rest ← stripPrefix (js "alse") s'; Some (JBool false, rest)
        else
          '(n, rest) ← parseNumber (c :: s'); Some (JNumber n, rest)
    end.
Proof. reflexivity. Qed.

Lemma parseMembers_S (f : nat) (s : jstring) :
  parseMembers (S f) s =
    match skipWhiteSpace s with
    | q :: s0 =>
        if q =? 0x22 then
          '(k, s1) ← parseChars s0;
          match skipWhiteSpace s1 with
          | colon :: s2 =>
              if colon =? 0x3A then
                '(v, s3) ← parseValue f s2;
                match skipWhiteSpace s3 with
                | c :: s4 =>
                    if c =? 0x7D then Some ([(k, v)], s4)
                    else if c =? 0x2C then
                      '(ms, rest) ← parseMembers f s4;
                      Some ((k, v) :: ms, rest)
                    else None
                | [] => None
                end
              else None
          | [] => None
          end
        else None
    | [] => None
    end.
Proof. reflexivity. Qed.

(** A successful parse reads at least one character, and succeeds with the
    same result on any fuel of at least about twice the number of characters
    it read. *)
Lemma parse_fuel (f : nat) :
  (forall s v rest, parseValue f s = Some (v, rest) ->
     (length rest < length s)%nat
     /\ forall g, (2 * (length s - length rest) - 1 <= g)%nat ->
                  parseValue g s = Some (v, rest))
  /\ (forall s vs rest, parseElements f s = Some (vs, rest) ->
        (length rest < length s)%nat
        /\ forall g, (2 * (length s - length rest) - 2 <= g)%nat ->
                     parseElements g s = Some (vs, rest))
  /\ (forall s ms rest, parseMembers f s = Some (ms, rest) ->
        (length rest < length s)%nat
        /\ forall g, (2 * (length s - length rest) - 2 <= g)%nat ->
                     parseMembers g s = Some (ms, rest)).
Proof.
  induction f as [|f (IHV & IHE & IHM)];
    [split; [|split]; intros; discriminate|].
  split; [|split].
  - (* values *)
    intros s v rest H. rewrite parseValue_S in H.
    destruct (skipWhiteSpace s) as [|c s'] eqn:Hws; [discriminate|].
    pose proof (skipWhiteSpace_cons_length _ _ _ Hws) as Hs'.
    destruct (c =? 0x22) eqn:E1.
    { assert (Hl : (length rest < length s')%nat).
      { destruct (parseChars s') as [[cs r]|] eqn:Hc; [|discriminate].
        injection H as _ <-. eapply parseChars_length, Hc. }
      split; [lia|]. intros [|g] Hg; [lia|].
      rewrite parseValue_S, Hws, E1. exact H. }
    destruct (c =? 0x5B) eqn:E2.
    { destruct (skipWhiteSpace s') as [|d s''] eqn:Hws'; [discriminate|].
      pose proof (skipWhiteSpace_cons_length _ _ _ Hws') as Hs''.
      destruct (d =? 0x5D) eqn:E3.
      { injection H as <- <-. split; [lia|]. intros [|g] Hg; [lia|].
        rewrite parseValue_S, Hws, E1, E2, Hws', E3. reflexivity. }
      destruct (parseElements f (d :: s'')) as [[vs r]|] eqn:He;
        [|discriminate].
      injection H as <- <-.
      destruct (IHE _ _ _ He) as [Hl Hg']. cbn [length] in Hl.
      split; [lia|]. intros [|g] Hg; [lia|].
      rewrite parseValue_S, Hws, E1, E2, Hws', E3.
      rewrite Hg' by (cbn [length]; lia). reflexivity. }
    destruct (c =? 0x7B) eqn:E4.
    { destruct (skipWhiteSpace s') as [|d s''] eqn:Hws'; [discriminate|].
      pose proof (skipWhiteSpace_cons_length _ _ _ Hws') as Hs''.
      destruct (d =? 0x7D) eqn:E3.
      { injection H as <- <-. split; [lia|]. intros [|g] Hg; [lia|].
        rewrite parseValue_S, Hws, E1, E2, E4, Hws', E3. reflexivity. }
      destruct (parseMembers f (d :: s'')) as [[ms r]|] eqn:He;
        [|discriminate].
      injection H as <- <-.
      destruct (IHM _ _ _ He) as [Hl Hg']. cbn [length] in Hl.
      split; [lia|]. intros [|g] Hg; [lia|].
      rewrite parseValue_S, Hws, E1, E2, E4, Hws', E3.
      rewrite Hg' by (cbn [length]; lia). reflexivity. }
    destruct (c =? 0x6E) eqn:E5.
    { assert (Hl : (length rest <= length s')%nat).
      { destruct (stripPrefix (js "ull") s') as [r|] eqn:Hp; [|discriminate].
        injection H as _ <-. eapply stripPrefix_length, Hp. }
      split; [lia|]. intros [|g] Hg; [lia|].
      rewrite parseValue_S, Hws, E1, E2, E4, E5. exact H. }
    destruct (c =? 0x74) eqn:E6.
    { assert (Hl : (length rest <= length s')%nat).
      { destruct (stripPrefix (js "rue") s') as [r|] eqn:Hp; [|discriminate].
        injection H as _ <-. eapply stripPrefix_length, Hp. }
      split; [lia|]. intros [|g] Hg; [lia|].
      rewrite parseValue_S, Hws, E1, E2, E4, E5, E6. exact H. }
    destruct (c =? 0x66) eqn:E7.
    { assert (Hl : (length rest <= length s')%nat).
      { destruct (stripPrefix (js "alse") s') as [r|] eqn:Hp; [|discriminate].
        injection H as _ <-. eapply stripPrefix_length, Hp. }
      split; [lia|]. intros [|g] Hg; [lia|].
      rewrite parseValue_S, Hws, E1, E2, E4, E5, E6, E7. exact H. }
    assert (Hl : (length rest < length (c :: s'))%nat).
    { destruct (parseNumber (c :: s')) as [[n r]|] eqn:Hn; [|discriminate].
      injection H as _ <-. eapply parseNumber_length, Hn. }
    cbn [length] in Hl.
    split; [lia|]. intros [|g] Hg; [lia|].
    rewrite parseValue_S, Hws, E1, E2, E4, E5, E6, E7. exact H.
  - (* elements *)
    intros s vs rest H. rewrite parseElements_S in H.
    destruct (parseValue f s) as [[v s1]|] eqn:Hv; [|discriminate].
    cbn [mbind option_bind] in H.
    destruct (IHV _ _ _ Hv) as [Hl1 Hg1].
    destruct (skipWhiteSpace s1) as [|c s2] eqn:Hws; [discriminate|].
    pose proof (skipWhiteSpace_cons_length _ _ _ Hws) as Hs2.
    destruct (c =? 0x5D) eqn:E1.
    { injection H as <- <-. split; [lia|]. intros [|g] Hg; [lia|].
      rewrite parseElements_S, Hg1 by lia.
      cbn [mbind option_bind]. rewrite Hws, E1. reflexivity. }
    destruct (c =? 0x2C) eqn:E2; [|discriminate].
    destruct (parseElements f s2) as [[vs' r]|] eqn:He; [|discriminate].
    injection H as <- <-.
    destruct (IHE _ _ _ He) as [Hl2 Hg2].
    split; [lia|]. intros [|g] Hg; [lia|].
    rewrite parseElements_S, Hg1 by lia.
    cbn [mbind option_bind]. rewrite Hws, E1, E2, Hg2 by lia.
    reflexivity.
  - (* members *)
    intros s ms rest H. rewrite parseMembers_S in H.
    destruct (skipWhiteSpace s) as [|q s0] eqn:Hws0; [discriminate|].
    pose proof (skipWhiteSpace_cons_length _ _ _ Hws0) as Hs0.
    destruct (q =? 0x22) eqn:E0; [|discriminate].
    destruct (parseChars s0) as [[k s1]|] eqn:Hk; [|discriminate].
    pose proof (parseChars_length _ _ _ Hk) as Hs1.
    cbn [mbind option_bind] in H.
    destruct (skipWhiteSpace s1) as [|colon s2] eqn:Hws1; [discriminate|].
    pose proof (skipWhiteSpace_cons_length _ _ _ Hws1) as Hs2.
    destruct (colon =? 0x3A) eqn:E1; [|discriminate].
    destruct (parseValue f s2) as [[v s3]|] eqn:Hv; [|discriminate].
    cbn [mbind option_bind] in H.
    destruct (IHV _ _ _ Hv) as [Hl3 Hg3].
    destruct (skipWhiteSpace s3) as [|c s4] eqn:Hws3; [discriminate|].
    pose proof (skipWhiteSpace_cons_length _ _ _ Hws3) as Hs4.
    destruct (c =? 0x7D) eqn:E2.
    { injection H as <- <-. split; [lia|]. intros [|g] Hg; [lia|].
      rewrite parseMembers_S, Hws0, E0, Hk. cbn [mbind option_bind].
      rewrite Hws1, E1, Hg3 by lia. cbn [mbind option_bind].
      rewrite Hws3, E2. reflexivity. }
    destruct (c =? 0x2C) eqn:E3; [|discriminate].
    destruct (parseMembers f s4) as [[ms' r]|] eqn:Hm; [|discriminate].
    injection H as <- <-.
    destruct (IHM _ _ _ Hm) as [Hl4 Hg4].
    split; [lia|]. intros [|g] Hg; [lia|].
    rewrite parseMembers_S, Hws0, E0, Hk. cbn [mbind option_bind].
    rewrite Hws1, E1, Hg3 by lia. cbn [mbind option_bind].
    rewrite Hws3, E2, E3, Hg4 by lia. reflexivity.
Qed.

(** Whatever some fuel lets the parser read of a text, the fuel that
    [JSON_parse] gives it reads too: fuel never decides whether a text is
    rejected. *)
Lemma parseValue_fuel_enough (f : nat) (s : jstring) (v : json)
    (rest : jstring) :
  parseValue f s = Some (v, rest) ->
  parseValue (2 * length s + 2) s = Some (v, rest).
Proof.
  intros H. destruct (parse_fuel f) as (HV & _).
  destruct (HV _ _ _ H) as [_ Hg]. apply Hg. lia.
Qed.

(** ** History store *)

Lemma length_pop (a : list jstring) : length (pop a) = (length a - 1)%nat.
Proof.
  unfold pop. rewrite removelast_firstn_len, length_take. lia.
Qed.

Lemma pop_cons (w : jstring) (a : list jstring) :
  a <> [] -> pop (w :: a) = w :: pop a.
Proof. destruct a; [congruence | reflexivity]. Qed.

Lemma NoDup_pop (a : list jstring) : NoDup a -> NoDup (pop a).
Proof.
  unfold pop. rewrite removelast_firstn_len.
  intros H. eapply sublist_NoDup; [exact H | apply sublist_take].
Qed.

Lemma elem_of_pop (x : jstring) (a : list jstring) : x ∈ pop a -> x ∈ a.
Proof.
  unfold pop. rewrite removelast_firstn_len.
  intros H. eapply elem_of_sublist; [exact H | apply sublist_take].
Qed.

(** The history an [addToSearchHistory w] leaves: [w], then the entries other
    than [w] in their order, without the last of them when there are five or
    more. *)
Lemma searchHistory_addToSearchHistory (w : jstring) (st : State) :
  searchHistory (addToSearchHistory w st) =
    let kept := filter (fun item => item <> w) (searchHistory st) in
    w :: (if bool_decide (5 <= length kept)%nat then pop kept else kept).
Proof.
  cbn -[filter]. 
  set (kept := filter _ (searchHistory st)).
  repeat case_bool_decide; try lia; try reflexivity.
  apply pop_cons. destruct kept; [simpl in *; lia | congruence].
Qed.

Lemma filter_fresh (w : jstring) (h : list jstring) :
  w ∉ h -> filter (fun item => item <> w) h = h.
Proof.
  induction h as [|a h IH]; intros Hw; [reflexivity|].
  apply not_elem_of_cons in Hw as [Hne Hw].
  rewrite filter_cons_True by congruence. f_equal. auto.
Qed.

Lemma addToSearchHistory_fresh (w : jstring) (st : State) :
  w ∉ searchHistory st ->
  searchHistory (addToSearchHistory w st) =
    w :: (if bool_decide (5 <= length (searchHistory st))%nat
          then pop (searchHistory st) else searchHistory st).
Proof.
  intros Hw. rewrite searchHistory_addToSearchHistory. cbn zeta.
  rewrite filter_fresh by exact Hw. reflexivity.
Qed.

Lemma recordAll_snoc (ws : list jstring) (w : jstring) (st : State) :
  recordAll (ws ++ [w]) st = addToSearchHistory w (recordAll ws st).
Proof. unfold recordAll. rewrite foldl_app. reflexivity. Qed.

Lemma length_addToSearchHistory_bound (w : jstring) (st : State) :
  (length (searchHistory st) <= 5)%nat ->
  (length (searchHistory (addToSearchHistory w st)) <= 5)%nat.
Proof.
  intros H. rewrite searchHistory_addToSearchHistory. cbn zeta.
  pose proof (length_filter (fun item => item <> w) (searchHistory st)) as Hf.
  case_bool_decide; cbn [length]; rewrite ?length_pop; lia.
Qed.

Lemma NoDup_addToSearchHistory (w : jstring) (st : State) :
  NoDup (searchHistory st) -> NoDup (searchHistory (addToSearchHistory w st)).
Proof.
  intros Hnd. rewrite searchHistory_addToSearchHistory. cbn zeta.
  set (kept := filter (fun item => item <> w) (searchHistory st)).
  assert (Hw : w ∉ kept).
  { subst kept. rewrite list_elem_of_filter. tauto. }
  assert (Hk : NoDup kept) by (apply NoDup_filter; exact Hnd).
  apply NoDup_cons. case_bool_decide.
  - split; [|apply NoDup_pop; exact Hk].
    intros Hin. apply Hw, elem_of_pop, Hin.
  - split; assumption.
Qed.

Lemma length_recordAll_bound (ws : list jstring) :
  forall st : State,
    (length (searchHistory st) <= 5)%nat ->
    (length (searchHistory (recordAll ws st)) <= 5)%nat.
Proof.
  induction ws as [|w ws IH]; intros st H; [exact H|].
  apply (IH (addToSearchHistory w st)), length_addToSearchHistory_bound, H.
Qed.

Lemma length_filter_NoDup (w : jstring) (h : list jstring) :
  NoDup h -> (length h <= length (filter (fun item => item <> w) h) + 1)%nat.
Proof.
  induction 1 as [|a h Ha Hnd IH]; [simpl; lia|].
  destruct (decide (a = w)) as [-> | Hne].
  - rewrite filter_cons_False by tauto.
    rewrite filter_fresh by exact Ha. cbn [length]. lia.
  - rewrite filter_cons_True by exact Hne. cbn [length]. lia.
Qed.

(** C2, as amended.  [addToSearchHistory w] removes every occurrence of [w]
    and puts [w] at the front: the resulting history starts with [w], holds
    it exactly once, and is the filtered old history behind it (less its
    last entry when the bound is passed).  It has no duplicates whenever the
    history it started from had none.  From the empty history, recording
    x, y, x leaves exactly x, y. *)
Theorem addToSearchHistory_front_once :
  (forall (w : jstring) (st : State),
     let kept := filter (fun item => item <> w) (searchHistory st) in
     let h' := searchHistory (addToSearchHistory w st) in
     (w ∉ kept)
     /\ h' = w :: (if bool_decide (5 <= length kept)%nat then pop kept else kept)
     /\ h' !! 0%nat = Some w
     /\ length (filter (fun item => item = w) h') = 1%nat
     /\ (NoDup (searchHistory st) -> NoDup h'))
  /\ searchHistory (recordAll [js "x"; js "y"; js "x"] emptyState)
     = [js "x"; js "y"].
Proof.
  split; [|reflexivity].
  intros w st kept h'.
  assert (Hw : w ∉ kept).
  { subst kept. rewrite list_elem_of_filter. tauto. }
  assert (Hh' : h' = w :: (if bool_decide (5 <= length kept)%nat
                           then pop kept else kept)).
  { subst h' kept. apply searchHistory_addToSearchHistory. }
  split; [exact Hw|]. split; [exact Hh'|].
  split; [rewrite Hh'; reflexivity|].
  split; [|apply NoDup_addToSearchHistory].
  rewrite Hh'. rewrite filter_cons_True by reflexivity. cbn [length]. f_equal.
  apply length_zero_iff_nil.
  assert (Hnone : forall l, w ∉ l -> filter (fun item => item = w) l = []).
  { induction l as [|a l IH]; intros Hl; [reflexivity|].
    apply not_elem_of_cons in Hl as [Hne Hl].
    rewrite filter_cons_False by congruence. auto. }
  apply Hnone. case_bool_decide; [|exact Hw].
  intros Hin. apply Hw, elem_of_pop, Hin.
Qed.

(** The amended C2 at a duplicate-free history. *)
Lemma addToSearchHistory_front_once_witness :
  NoDup [js "y"; js "x"]
  /\ NoDup (searchHistory
              (addToSearchHistory (js "x") (startState [js "y"; js "x"] []))).
Proof.
  assert (H : NoDup [js "y"; js "x"]).
  { refine (bool_decide_unpack _ _). vm_compute. exact I. }
  split; [exact H|].
  apply (proj1 addToSearchHistory_front_once (js "x")
           (startState [js "y"; js "x"] [])).
  exact H.
Defined.

(** C2 as first stated fails on a history that already repeats another word:
    recording "x" into a, a leaves x, a, a. *)
Lemma addToSearchHistory_keeps_old_duplicates :
  searchHistory (addToSearchHistory (js "x") (startState [js "a"; js "a"] []))
    = [js "x"; js "a"; js "a"]
  /\ ~ NoDup (searchHistory
                (addToSearchHistory (js "x") (startState [js "a"; js "a"] []))).
Proof.
  split; [reflexivity|].
  refine (bool_decide_unpack _ _). vm_compute. exact I.
Qed.

Ltac fresh_in_list :=
  repeat (apply not_elem_of_cons; split; [congruence|]); apply not_elem_of_nil.

(** C3.  Starting from the empty history, no run of [addToSearchHistory]
    calls makes the history longer than five.  Recording a word that is not
    in a history of five puts it in front and evicts the last, oldest entry;
    so six distinct words recorded in turn leave the last five, most recent
    first. *)
Theorem history_capacity_five :
  (forall ws : list jstring,
     (length (searchHistory (recordAll ws emptyState)) <= 5)%nat)
  /\ (forall (w : jstring) (st : State),
        length (searchHistory st) = 5%nat ->
        w ∉ searchHistory st ->
        searchHistory (addToSearchHistory w st) = w :: pop (searchHistory st))
  /\ (forall w1 w2 w3 w4 w5 w6 : jstring,
        NoDup [w1; w2; w3; w4; w5; w6] ->
        searchHistory (recordAll [w1; w2; w3; w4; w5; w6] emptyState)
        = [w6; w5; w4; w3; w2]).
Proof.
  split; [|split].
  - intros ws. apply length_recordAll_bound. simpl. lia.
  - intros w st Hlen Hw. rewrite addToSearchHistory_fresh by exact Hw.
    rewrite Hlen. reflexivity.
  - intros w1 w2 w3 w4 w5 w6 Hnd.
    repeat match goal with
           | H : NoDup (_ :: _) |- _ => apply NoDup_cons in H as [? H]
           end.
    repeat match goal with
           | H : _ ∉ _ :: _ |- _ => apply not_elem_of_cons in H as [? H]
           end.
    assert (R1 : searchHistory (recordAll [w1] emptyState) = [w1])
      by reflexivity.
    assert (R2 : searchHistory (recordAll [w1; w2] emptyState) = [w2; w1]).
    { change (recordAll [w1; w2] emptyState)
        with (addToSearchHistory w2 (recordAll [w1] emptyState)).
      rewrite addToSearchHistory_fresh; rewrite R1;
        [reflexivity | fresh_in_list]. }
    assert (R3 : searchHistory (recordAll [w1; w2; w3] emptyState)
                 = [w3; w2; w1]).
    { change (recordAll [w1; w2; w3] emptyState)
        with (addToSearchHistory w3 (recordAll [w1; w2] emptyState)).
      rewrite addToSearchHistory_fresh; rewrite R2;
        [reflexivity | fresh_in_list]. }
    assert (R4 : searchHistory (recordAll [w1; w2; w3; w4] emptyState)
                 = [w4; w3; w2; w1]).
    { change (recordAll [w1; w2; w3; w4] emptyState)
        with (addToSearchHistory w4 (recordAll [w1; w2; w3] emptyState)).
      rewrite addToSearchHistory_fresh; rewrite R3;
        [reflexivity | fresh_in_list]. }
    assert (R5 : searchHistory (recordAll [w1; w2; w3; w4; w5] emptyState)
                 = [w5; w4; w3; w2; w1]).
    { change (recordAll [w1; w2; w3; w4; w5] emptyState)
        with (addToSearchHistory w5 (recordAll [w1; w2; w3; w4] emptyState)).
      rewrite addToSearchHistory_fresh; rewrite R4;
        [reflexivity | fresh_in_list]. }
    change (recordAll [w1; w2; w3; w4; w5; w6] emptyState)
      with (addToSearchHistory w6 (recordAll [w1; w2; w3; w4; w5] emptyState)).
    rewrite addToSearchHistory_fresh; rewrite R5;
      [reflexivity | fresh_in_list].
Qed.

(** C3 at six distinct words. *)
Lemma history_capacity_five_witness :
  searchHistory
    (recordAll [js "a"; js "b"; js "c"; js "d"; js "e"; js "f"] emptyState)
  = [js "f"; js "e"; js "d"; js "c"; js "b"].
Proof.
  apply (proj2 (proj2 history_capacity_five)).
  refine (bool_decide_unpack _ _). vm_compute. exact I.
Defined.

(** C10, as amended.  The truncation of [addToSearchHistory] is a single
    [pop]: it takes at most one entry off the list it is given, so a call
    makes the history at most one longer, and it leaves a history within the
    bound of five exactly when the entries other than the recorded word are
    at most five, hence only from a history of at most six entries when that
    history has no duplicates.  Recording a new word into a history longer
    than five leaves its length as it was. *)
Theorem addToSearchHistory_single_pop (w : jstring) (st : State) :
  let h := searchHistory st in
  let kept := filter (fun item => item <> w) h in
  let h' := searchHistory (addToSearchHistory w st) in
  (length (w :: kept) - 1 <= length h')%nat
  /\ (length h' <= length h + 1)%nat
  /\ ((length h' <= 5)%nat <-> (length kept <= 5)%nat)
  /\ ((length h' <= 5)%nat -> NoDup h -> (length h <= 6)%nat)
  /\ (w ∉ h -> (5 < length h)%nat -> length h' = length h).
Proof.
  intros h kept h'.
  assert (Hh' : h' = w :: (if bool_decide (5 <= length kept)%nat
                           then pop kept else kept)).
  { subst h' kept h. apply searchHistory_addToSearchHistory. }
  assert (Hk : (length kept <= length h)%nat) by apply length_filter.
  assert (Hlen : length h' = if bool_decide (5 <= length kept)%nat
                             then length kept else S (length kept)).
  { rewrite Hh'. case_bool_decide; cbn [length]; rewrite ?length_pop; lia. }
  split; [cbn [length]; rewrite Hlen; case_bool_decide; lia|].
  split; [rewrite Hlen; case_bool_decide; lia|].
  split; [rewrite Hlen; case_bool_decide; lia|].
  split.
  - intros Hb Hnd. pose proof (length_filter_NoDup w h Hnd) as Hf.
    fold kept in Hf. rewrite Hlen in Hb. case_bool_decide; lia.
  - intros Hw Hlong. rewrite Hlen. clear Hlen Hh'.
    assert (Hkept : kept = h) by (apply filter_fresh; exact Hw).
    rewrite Hkept. case_bool_decide; lia.
Qed.

(** The amended C10 at a duplicate-free history of seven entries. *)
Lemma addToSearchHistory_single_pop_witness :
  let h := [js "a"; js "b"; js "c"; js "d"; js "e"; js "f"; js "g"] in
  (js "x" ∉ h) /\ (5 < length h)%nat
  /\ length (searchHistory (addToSearchHistory (js "x") (startState h [])))
     = length h.
Proof.
  intros h.
  assert (Hw : js "x" ∉ h).
  { refine (bool_decide_unpack _ _). vm_compute. exact I. }
  assert (Hl : (5 < length h)%nat) by (simpl; lia).
  split; [exact Hw|]. split; [exact Hl|].
  exact (proj2 (proj2 (proj2 (proj2
           (addToSearchHistory_single_pop (js "x") (startState h []))))) Hw Hl).
Defined.

(** C10 as first stated fails on a history that repeats the recorded word:
    from seven copies of "x", recording "x" leaves the single entry "x",
    within the bound, though the history was longer than six. *)
Lemma addToSearchHistory_restores_bound_from_seven :
  let h := [js "x"; js "x"; js "x"; js "x"; js "x"; js "x"; js "x"] in
  let st := startState h [] in
  searchHistory (addToSearchHistory (js "x") st) = [js "x"]
  /\ (length (searchHistory (addToSearchHistory (js "x") st)) <= 5)%nat
  /\ ~ (length (searchHistory st) <= 6)%nat.
Proof.
  cbv zeta. split; [reflexivity|]. split; [vm_compute; lia|].
  vm_compute. lia.
Qed.

(** ** Interaction controller *)

Lemma nonEmpty_false (s : jstring) : nonEmpty s = false <-> s = [].
Proof. destruct s; simpl; split; congruence. Qed.

Lemma nonEmpty_true (s : jstring) : nonEmpty s = true <-> s <> [].
Proof. destruct s; simpl; split; congruence. Qed.

(** What [performSearch] does once the input has passed validation. *)
Lemma performSearch_valid (E : Engine) (fetch : jstring -> FetchOutcome)
    (st : State) :
  let w := toLowerCase E (trim (wordInput st)) in
  w <> [] ->
  performSearch E fetch st =
    match performSearch_try E fetch w (set_resultSection LoadingView st) with
    | Normal st' => st'
    | Throw error st' =>
        if bool_decide (message error = js "Word not found") then
          showError (dquote ++ w ++ dquote
                       ++ js " not found. Please try another word.") st'
        else
          showError (js "Something went wrong. Please try again later.") st'
    end.
Proof.
  intros w Hw. unfold performSearch. fold w.
  apply nonEmpty_true in Hw. rewrite Hw. reflexivity.
Qed.

(** C4.  When the input holds nothing but white space (the empty input
    included), [performSearch] shows the error "Please enter a word to
    search." and does nothing else: no request is issued, and the history,
    in memory and in storage, is as it was. *)
Theorem performSearch_empty_input (E : Engine)
    (fetch : jstring -> FetchOutcome) (st : State) :
  toLowerCase E [] = [] ->
  Forall (fun c => isWhiteSpace c = true) (wordInput st) ->
  let st' := performSearch E fetch st in
  resultSection st' = ErrorView (js "Please enter a word to search.")
  /\ requests st' = requests st
  /\ searchHistory st' = searchHistory st
  /\ localStorage st' = localStorage st
  /\ historyList st' = historyList st.
Proof.
  intros Hlower Hws st'. subst st'. unfold performSearch.
  rewrite (trim_whitespace _ Hws), Hlower. cbn.
  repeat split.
Qed.

(** C4 at an input of blanks, tabs and a no-break space. *)
Lemma performSearch_empty_input_witness :
  let st := startState [js "old"] [0x20; 0x9; 0xA0; 0x20] in
  let st' := performSearch asciiEngine (fun _ => FetchResponse 200 (BodyData [])) st in
  resultSection st' = ErrorView (js "Please enter a word to search.")
  /\ requests st' = requests st
  /\ searchHistory st' = searchHistory st
  /\ localStorage st' = localStorage st
  /\ historyList st' = historyList st.
Proof.
  intros st.
  apply (performSearch_empty_input asciiEngine
           (fun _ => FetchResponse 200 (BodyData [])) st).
  - reflexivity.
  - repeat constructor.
Defined.

(** C5.  For a searched word [w] (the trimmed, lowercased input, not empty):
    a response with status 404 shows the error that quotes [w]; a response
    with any other status outside 200-299, a rejected [fetch] and a rejected
    [response.json()] show the generic error, the last two provided the
    message of the error the platform raised is not the text by which the
    script recognises its own not-found error. *)
Theorem performSearch_failure_messages (E : Engine)
    (fetch : jstring -> FetchOutcome) (st : State) :
  let w := toLowerCase E (trim (wordInput st)) in
  let url := API_BASE_URL ++ w in
  let view := resultSection (performSearch E fetch st) in
  let generic := ErrorView (js "Something went wrong. Please try again later.") in
  w <> [] ->
  (forall body, fetch url = FetchResponse 404 body ->
     view = ErrorView (dquote ++ w ++ dquote
                         ++ js " not found. Please try another word."))
  /\ (forall status body, fetch url = FetchResponse status body ->
        ok status = false -> status <> 404 -> view = generic)
  /\ (forall e, fetch url = FetchRejected e ->
        message e <> js "Word not found" -> view = generic)
  /\ (forall status e, fetch url = FetchResponse status (BodyRejected e) ->
        ok status = true ->
        message e <> js "Word not found" -> view = generic).
Proof.
  intros w url view generic Hw. subst view.
  rewrite performSearch_valid by exact Hw. fold w.
  unfold performSearch_try. fold url.
  split; [|split; [|split]].
  - intros body ->. reflexivity.
  - intros status body -> Hok Hne. rewrite Hok. cbn [negb].
    apply N.eqb_neq in Hne. rewrite Hne. reflexivity.
  - intros e -> He. cbn iota. rewrite bool_decide_eq_false_2 by exact He.
    reflexivity.
  - intros status e -> Hok He. rewrite Hok. cbn [negb]. cbn iota.
    rewrite bool_decide_eq_false_2 by exact He. reflexivity.
Qed.

(** C5 at the word "zzzzz" answered with status 404. *)
Lemma performSearch_failure_messages_witness :
  resultSection
    (performSearch asciiEngine (fun _ => FetchResponse 404 (BodyData []))
       (startState [] (js " Zzzzz ")))
  = ErrorView (dquote ++ js "zzzzz" ++ dquote
                 ++ js " not found. Please try another word.").
Proof.
  assert (Hw : toLowerCase asciiEngine (trim (wordInput (startState [] (js " Zzzzz ")))) <> [])
    by (vm_compute; discriminate).
  exact (proj1 (performSearch_failure_messages asciiEngine
                  (fun _ => FetchResponse 404 (BodyData []))
                  (startState [] (js " Zzzzz ")) Hw)
           (BodyData []) eq_refl).
Defined.

(** C9.  When the response is successful and its body is the empty array,
    element 0 is [undefined], [displayWordInfo] throws on destructuring it,
    the handler of [performSearch] shows the generic error, and the history,
    in memory and in storage, is as it was. *)
Theorem performSearch_empty_array (E : Engine)
    (fetch : jstring -> FetchOutcome) (st : State) (status : N) :
  let w := toLowerCase E (trim (wordInput st)) in
  let st' := performSearch E fetch st in
  w <> [] ->
  destructureErrorMessage E <> js "Word not found" ->
  fetch (API_BASE_URL ++ w) = FetchResponse status (BodyData []) ->
  ok status = true ->
  (@nil DictionaryEntry) !! 0%nat = None
  /\ (forall s, displayWordInfo E None s
                = Throw (TypeError (destructureErrorMessage E)) s)
  /\ resultSection st'
     = ErrorView (js "Something went wrong. Please try again later.")
  /\ searchHistory st' = searchHistory st
  /\ localStorage st' = localStorage st
  /\ historyList st' = historyList st.
Proof.
  intros w st' Hw Hmsg Hfetch Hok. subst st'.
  split; [reflexivity|]. split; [reflexivity|].
  rewrite performSearch_valid by exact Hw. fold w.
  unfold performSearch_try. rewrite Hfetch, Hok. cbn [negb].
  cbn [lookup list_lookup displayWordInfo message].
  rewrite bool_decide_eq_false_2 by exact Hmsg.
  repeat split.
Qed.

(** C9 at the word "hello" answered with status 200 and an empty array. *)
Lemma performSearch_empty_array_witness :
  let st := startState [js "old"] (js "hello") in
  let st' := performSearch asciiEngine (fun _ => FetchResponse 200 (BodyData [])) st in
  resultSection st'
    = ErrorView (js "Something went wrong. Please try again later.")
  /\ searchHistory st' = [js "old"].
Proof.
  intros st st'.
  assert (Hw : toLowerCase asciiEngine (trim (wordInput st)) <> [])
    by (vm_compute; discriminate).
  assert (Hm : destructureErrorMessage asciiEngine <> js "Word not found")
    by (vm_compute; discriminate).
  destruct (performSearch_empty_array asciiEngine
              (fun _ => FetchResponse 200 (BodyData [])) st 200
              Hw Hm eq_refl eq_refl) as (_ & _ & Hview & Hhist & _).
  split; [exact Hview | exact Hhist].
Defined.

(** ** Part-of-speech icons *)

(** The eight parts of speech of the table have their own icons, no two the
    same. *)
Lemma getPartOfSpeechIcon_table :
  (getPartOfSpeechIcon <$>
     [js "noun"; js "verb"; js "adjective"; js "adverb"; js "pronoun";
      js "preposition"; js "conjunction"; js "interjection"])
  = (IconClass <$>
     [js "fas fa-landmark"; js "fas fa-running"; js "fas fa-adjust";
      js "fas fa-bolt"; js "fas fa-user"; js "fas fa-arrows-alt";
      js "fas fa-link"; js "fas fa-exclamation"])
  /\ NoDup [js "fas fa-landmark"; js "fas fa-running"; js "fas fa-adjust";
            js "fas fa-bolt"; js "fas fa-user"; js "fas fa-arrows-alt";
            js "fas fa-link"; js "fas fa-exclamation"; js "fas fa-font"].
Proof.
  split; [vm_compute; reflexivity|].
  refine (bool_decide_unpack _ _). vm_compute. exact I.
Qed.

(** The result is never [undefined]. *)
Lemma getPartOfSpeechIcon_defined (pos : jstring) :
  getPartOfSpeechIcon pos <> Undefined.
Proof.
  unfold getPartOfSpeechIcon, iconMap_get. cbv zeta.
  destruct (iconMap !! pos) as [[|c icon]|]; [discriminate ..|].
  case_bool_decide; discriminate.
Qed.

(** A string that is neither a key of the table nor the name of a member of
    [Object.prototype] gets the default icon. *)
Lemma getPartOfSpeechIcon_default (pos : jstring) :
  iconMap !! pos = None ->
  pos ∉ Object_prototype_names ->
  getPartOfSpeechIcon pos = IconClass (js "fas fa-font").
Proof.
  intros Hown Hproto. unfold getPartOfSpeechIcon, iconMap_get.
  rewrite Hown, bool_decide_eq_false_2 by exact Hproto. reflexivity.
Qed.

Lemma getPartOfSpeechIcon_empty :
  getPartOfSpeechIcon [] = IconClass (js "fas fa-font").
Proof. vm_compute. reflexivity. Qed.

(** C6, at the input on which the script departs from it: for the part of
    speech "constructor" the lookup [iconMap[pos]] finds the member that
    [iconMap] inherits from [Object.prototype], a function, which is truthy;
    the result is that function and not the default icon. *)
Theorem getPartOfSpeechIcon_constructor :
  iconMap !! js "constructor" = None
  /\ getPartOfSpeechIcon (js "constructor") = Inherited (js "constructor")
  /\ getPartOfSpeechIcon (js "constructor") <> IconClass (js "fas fa-font").
Proof.
  split; [vm_compute; reflexivity|].
  split; [vm_compute; reflexivity|].
  vm_compute. discriminate.
Qed.

(** ** Result renderer *)

(** C7, as amended.  On an entry, [displayWordInfo] renders: the phonetic
    text when it is present and not empty, else "Not available"; the part of
    speech of the first meaning with its first character uppercased when it
    is present and not empty, else "Not specified"; the definition of the
    first definition of the first meaning when both sequences are not empty
    and that definition is present and not empty, else "Definition not
    available"; its example between double quotes under the same
    conditions, else "Example not available". *)
Theorem displayWordInfo_fields (E : Engine) (wd : DictionaryEntry)
    (st : State) :
  exists r : ResultMarkup,
    displayWordInfo E (Some wd) st
      = Normal (set_resultSection (ResultView r) st)
    /\ phoneticText r =
         match phonetic wd with
         | Some (c :: s) => c :: s
         | _ => js "Not available"
         end
    /\ posText r =
         match meanings wd with
         | Some (m :: _) =>
             match partOfSpeech m with
             | Some (c :: s) => toUpperCase E [c] ++ s
             | _ => js "Not specified"
             end
         | _ => js "Not specified"
         end
    /\ meaningText r =
         match meanings wd with
         | Some (m :: _) =>
             match definitions m with
             | Some (d :: _) =>
                 match definition d with
                 | Some (c :: s) => c :: s
                 | _ => js "Definition not available"
                 end
             | _ => js "Definition not available"
             end
         | _ => js "Definition not available"
         end
    /\ exampleText r =
         match meanings wd with
         | Some (m :: _) =>
             match definitions m with
             | Some (d :: _) =>
                 match example d with
                 | Some (c :: s) => dquote ++ (c :: s) ++ dquote
                 | _ => js "Example not available"
                 end
             | _ => js "Example not available"
             end
         | _ => js "Example not available"
         end.
Proof.
  destruct wd as [w ph phs ms]. unfold displayWordInfo.
  cbn [phonetic meanings phonetics word].
  destruct ms as [[|[pos defs] ms']|].
  - eexists. split; [reflexivity|].
    cbn. repeat split; destruct ph as [[|c s]|]; reflexivity.
  - destruct defs as [[|[def ex] defs']|];
      cbn [partOfSpeech definitions definition example].
    + eexists. split; [reflexivity|]. cbn.
      repeat split; try (destruct ph as [[|c s]|]; reflexivity).
      destruct pos as [[|c s]|]; reflexivity.
    + eexists. split; [reflexivity|]. cbn.
      repeat split.
      * destruct ph as [[|c s]|]; reflexivity.
      * destruct pos as [[|c s]|]; reflexivity.
      * destruct def as [[|c s]|]; reflexivity.
      * destruct ex as [[|c s]|]; reflexivity.
    + eexists. split; [reflexivity|]. cbn.
      repeat split; try (destruct ph as [[|c s]|]; reflexivity).
      destruct pos as [[|c s]|]; reflexivity.
  - eexists. split; [reflexivity|].
    cbn. repeat split; destruct ph as [[|c s]|]; reflexivity.
Qed.

(** C7 as first stated fails on an entry whose first definition has an empty
    definition text and an empty example: both sequences are not empty and
    the example is present, yet the view shows the two placeholders. *)
Lemma displayWordInfo_empty_definition :
  exists r : ResultMarkup,
    displayWordInfo asciiEngine (Some emptyDefinitionEntry) emptyState
      = Normal (set_resultSection (ResultView r) emptyState)
    /\ meaningText r = js "Definition not available"
    /\ firstDefinitionOf emptyDefinitionEntry
       = Some {| definition := Some []; example := Some [] |}
    /\ meaningText r <> []
    /\ exampleText r = js "Example not available".
Proof.
  eexists. split; [reflexivity|].
  split; [reflexivity|]. split; [reflexivity|].
  split; [vm_compute; discriminate | reflexivity].
Qed.

(** The scenario of the specification: the entry of "hello". *)
Lemma displayWordInfo_hello :
  displayWordInfo asciiEngine (Some helloEntry) emptyState
  = Normal (set_resultSection (ResultView {|
      wordTitle := js "hello";
      phoneticText := js "/hello/";
      audioButton := None;
      posIcon := IconClass (js "fas fa-font");
      posText := js "Exclamation";
      meaningText := js "used as a greeting";
      exampleClass := js "example";
      exampleText := dquote ++ js "hello there!" ++ dquote |}) emptyState).
Proof. vm_compute. reflexivity. Qed.

(** ** Loading and persisting the history *)

(** C1, as amended.  Line 12 of the script loads the history.  With nothing
    stored under the key the history is the empty array.  A stored text that
    is not valid JSON makes [JSON.parse] throw a [SyntaxError], which nothing
    catches.  A stored text that is valid JSON gives the parsed value,
    whatever its type, unless that value is falsy, in which case the history
    is the empty array.  So the history starts empty exactly when nothing is
    stored, or what is stored parses to a falsy value or to the empty
    array. *)
Theorem load_searchHistory_cases (E : Engine)
    (storage : gmap jstring jstring) :
  (storage !! historyKey = None ->
     load_searchHistory E storage = Loaded (JArray []))
  /\ (forall text, storage !! historyKey = Some text ->
        JSON_parse text = None ->
        load_searchHistory E storage
        = LoadThrows (SyntaxError (syntaxErrorMessage E text)))
  /\ (forall text v, storage !! historyKey = Some text ->
        JSON_parse text = Some v ->
        load_searchHistory E storage
        = Loaded (if truthy v then v else JArray []))
  /\ (load_searchHistory E storage = Loaded (JArray []) <->
      match storage !! historyKey with
      | None => True
      | Some text =>
          exists v, JSON_parse text = Some v
                    /\ (truthy v = false \/ v = JArray [])
      end).
Proof.
  unfold load_searchHistory. split; [|split; [|split]].
  - intros ->. reflexivity.
  - intros text -> ->. reflexivity.
  - intros text v -> ->. reflexivity.
  - destruct (storage !! historyKey) as [text|]; [|split; reflexivity].
    destruct (JSON_parse text) as [v|]; split.
    + intros H. exists v. split; [reflexivity|].
      destruct (truthy v); [right; congruence | left; reflexivity].
    + intros (v' & Hv' & Hcase). injection Hv' as <-.
      destruct Hcase as [-> | ->]; reflexivity.
    + discriminate.
    + intros (v' & Hv' & _). discriminate.
Qed.

(** The amended C1 at an empty storage. *)
Lemma load_searchHistory_cases_witness :
  load_searchHistory asciiEngine ∅ = Loaded (JArray []).
Proof.
  apply (proj1 (load_searchHistory_cases asciiEngine ∅)).
  reflexivity.
Defined.

(** C1 as first stated fails on malformed stored content: the text [{] is
    not valid JSON and the load throws; the text [{}] is valid JSON but no
    array of strings, and the history becomes that object. *)
Lemma load_searchHistory_malformed :
  JSON_parse (js "{") = None
  /\ load_searchHistory asciiEngine {[ historyKey := js "{" ]}
     = LoadThrows (SyntaxError (js "Unexpected token"))
  /\ JSON_parse (js "{}") = Some (JObject [])
  /\ (forall h, JObject [] <> historyValue h)
  /\ load_searchHistory asciiEngine {[ historyKey := js "{}" ]}
     = Loaded (JObject [])
  /\ load_searchHistory asciiEngine {[ historyKey := js "{}" ]}
     <> Loaded (JArray []).
Proof.
  split; [vm_compute; reflexivity|].
  split; [vm_compute; reflexivity|].
  split; [vm_compute; reflexivity|].
  split; [intros h; discriminate|].
  split; [vm_compute; reflexivity|].
  vm_compute. discriminate.
Qed.

Lemma localStorage_addToSearchHistory (w : jstring) (st : State) :
  localStorage (addToSearchHistory w st) !! historyKey
  = Some (JSON_stringify (searchHistory (addToSearchHistory w st))).
Proof. cbn -[filter JSON_stringify historyKey]. apply lookup_insert_eq. Qed.

Lemma load_stringified (E : Engine) (storage : gmap jstring jstring)
    (h : list jstring) :
  storage !! historyKey = Some (JSON_stringify h) ->
  load_searchHistory E storage = Loaded (historyValue h).
Proof.
  intros Hs. unfold load_searchHistory.
  rewrite Hs, JSON_parse_stringify. reflexivity.
Qed.

(** C8.  Serializing a history of up to five strings under the storage key
    and loading it, as a new session does at line 12, gives back the same
    sequence; so the history that any [addToSearchHistory] leaves is the one
    the next session starts from. *)
Theorem history_roundtrip (E : Engine) :
  (forall (storage : gmap jstring jstring) (h : list jstring),
     (length h <= 5)%nat ->
     load_searchHistory E (<[historyKey := JSON_stringify h]> storage)
     = Loaded (historyValue h))
  /\ (forall (w : jstring) (st : State),
        load_searchHistory E (localStorage (addToSearchHistory w st))
        = Loaded (historyValue (searchHistory (addToSearchHistory w st)))).
Proof.
  split.
  - intros storage h _. apply load_stringified, lookup_insert_eq.
  - intros w st. apply load_stringified, localStorage_addToSearchHistory.
Qed.

(** C8 at a history of three words, one with a quote and a line break. *)
Lemma history_roundtrip_witness :
  let h := [js "serendipity"; [0x61; 0x22; 0xA; 0x62]; js "eloquent"] in
  load_searchHistory asciiEngine (<[historyKey := JSON_stringify h]> ∅)
  = Loaded (historyValue h).
Proof.
  intros h.
  apply (proj1 (history_roundtrip asciiEngine) ∅ h).
  simpl. lia.
Defined.

(** * Further properties *)

(** ** Shared lemmas *)

Lemma displayWordInfo_Some (E : Engine) (wd : DictionaryEntry) (st : State) :
  displayWordInfo E (Some wd) st
  = Normal (set_resultSection (ResultView (renderEntry E wd)) st).
Proof.
  unfold displayWordInfo, renderEntry.
  destruct (meanings wd) as [[|[pos defs] ms]|]; try reflexivity.
  cbn [partOfSpeech definitions].
  destruct defs as [[|d ds]|]; reflexivity.
Qed.

(** The state [addToSearchHistory] leaves, field by field. *)
Lemma addToSearchHistory_state (w : jstring) (st : State) :
  addToSearchHistory w st =
    let h' := searchHistory (addToSearchHistory w st) in
    {| wordInput := wordInput st; resultSection := resultSection st;
       historyList := HistoryItems h'; searchHistory := h';
       localStorage := <[historyKey := JSON_stringify h']> (localStorage st);
       requests := requests st |}.
Proof.
  cbv zeta. unfold addToSearchHistory, displaySearchHistory.
  cbn [searchHistory wordInput resultSection localStorage requests historyList].
  f_equal. rewrite bool_decide_eq_false_2; [reflexivity|].
  case_bool_decide as Hlen; [|discriminate].
  cbn [length] in Hlen.
  destruct (filter _ (searchHistory st)); [simpl in Hlen; lia | discriminate].
Qed.

(** ** History store: further properties *)

Lemma pop_take (a : list jstring) : pop a = take (length a - 1) a.
Proof.
  unfold pop. rewrite removelast_firstn_len. f_equal. lia.
Qed.

(** On a history within the bound, the history an [addToSearchHistory]
    leaves is the first five of: the word, then the other entries. *)
Lemma searchHistory_addToSearchHistory_take (w : jstring) (st : State) :
  (length (searchHistory st) <= 5)%nat ->
  searchHistory (addToSearchHistory w st)
  = take 5 (w :: filter (fun item => item <> w) (searchHistory st)).
Proof.
  intros Hlen. rewrite searchHistory_addToSearchHistory. cbn zeta.
  pose proof (length_filter (fun item => item <> w) (searchHistory st)) as Hf.
  set (kept := filter _ (searchHistory st)) in *.
  cbn [take]. f_equal. case_bool_decide.
  - rewrite pop_take. f_equal. lia.
  - symmetry. apply take_ge. lia.
Qed.

(** X5.  Recording a word twice in a row is the same as recording it once:
    the second call changes nothing in the state, when the history is within
    the bound of five. *)
Theorem addToSearchHistory_twice (w : jstring) (st : State) :
  (length (searchHistory st) <= 5)%nat ->
  addToSearchHistory w (addToSearchHistory w st) = addToSearchHistory w st.
Proof.
  intros Hlen.
  assert (Hh : searchHistory (addToSearchHistory w (addToSearchHistory w st))
               = searchHistory (addToSearchHistory w st)).
  { rewrite (searchHistory_addToSearchHistory w (addToSearchHistory w st)).
    cbn zeta.
    pose proof (length_addToSearchHistory_bound w st Hlen) as Hb.
    rewrite (searchHistory_addToSearchHistory w st) in *. cbn zeta in *.
    set (kept := filter (fun item => item <> w) (searchHistory st)) in *.
    set (t := if bool_decide (5 <= length kept)%nat then pop kept else kept)
      in *.
    assert (Hw : w ∉ t).
    { assert (Hk : w ∉ kept) by (subst kept; rewrite list_elem_of_filter; tauto).
      subst t. case_bool_decide; [|exact Hk].
      intros Hin. apply Hk, elem_of_pop, Hin. }
    rewrite filter_cons_False by tauto.
    rewrite filter_fresh by exact Hw.
    cbn [length] in Hb. rewrite bool_decide_eq_false_2 by lia. reflexivity. }
  rewrite (addToSearchHistory_state w (addToSearchHistory w st)). cbv zeta.
  rewrite Hh. clear Hh.
  pose proof (addToSearchHistory_state w st) as HA. cbv zeta in HA.
  remember (addToSearchHistory w st) as A eqn:EA. clear EA.
  rewrite HA.
  cbn [wordInput resultSection localStorage requests searchHistory].
  rewrite insert_insert_eq. reflexivity.
Qed.

(** X5 at a history of two words. *)
Lemma addToSearchHistory_twice_witness :
  addToSearchHistory (js "b")
    (addToSearchHistory (js "b") (startState [js "a"; js "b"] []))
  = addToSearchHistory (js "b") (startState [js "a"; js "b"] []).
Proof.
  apply (addToSearchHistory_twice (js "b") (startState [js "a"; js "b"] [])).
  simpl. lia.
Defined.

Lemma filter_Permutation_move (w : jstring) (h : list jstring) :
  NoDup h -> w ∈ h -> w :: filter (fun item => item <> w) h ≡ₚ h.
Proof.
  induction 1 as [|a h Ha Hnd IH]; intros Hw; [inversion Hw|].
  destruct (decide (a = w)) as [-> | Hne].
  - rewrite filter_cons_False by tauto.
    rewrite filter_fresh by exact Ha. reflexivity.
  - rewrite filter_cons_True by exact Hne.
    apply elem_of_cons in Hw as [-> | Hw]; [congruence|].
    rewrite Permutation_swap. f_equal. apply perm_skip, IH, Hw.
Qed.

(** X6.  Recording a word that a duplicate-free history within the bound
    already holds moves that word to the front and evicts nothing: the
    history keeps its length and its words. *)
Theorem addToSearchHistory_existing (w : jstring) (st : State) :
  NoDup (searchHistory st) ->
  (length (searchHistory st) <= 5)%nat ->
  w ∈ searchHistory st ->
  searchHistory (addToSearchHistory w st)
    = w :: filter (fun item => item <> w) (searchHistory st)
  /\ searchHistory (addToSearchHistory w st) ≡ₚ searchHistory st
  /\ length (searchHistory (addToSearchHistory w st))
     = length (searchHistory st).
Proof.
  intros Hnd Hlen Hw.
  pose proof (filter_Permutation_move w _ Hnd Hw) as Hp.
  assert (Heq : searchHistory (addToSearchHistory w st)
                = w :: filter (fun item => item <> w) (searchHistory st)).
  { rewrite searchHistory_addToSearchHistory_take by exact Hlen.
    apply take_ge. rewrite Hp. exact Hlen. }
  rewrite Heq. split; [reflexivity|]. split; [exact Hp|].
  rewrite Hp. reflexivity.
Qed.

(** X6 at a history of three words. *)
Lemma addToSearchHistory_existing_witness :
  searchHistory
    (addToSearchHistory (js "c") (startState [js "a"; js "b"; js "c"] []))
  ≡ₚ [js "a"; js "b"; js "c"].
Proof.
  assert (Hnd : NoDup [js "a"; js "b"; js "c"]).
  { refine (bool_decide_unpack _ _). vm_compute. exact I. }
  assert (Hw : js "c" ∈ [js "a"; js "b"; js "c"]).
  { refine (bool_decide_unpack _ _). vm_compute. exact I. }
  assert (Hlen : (length [js "a"; js "b"; js "c"] <= 5)%nat) by (simpl; lia).
  exact (proj1 (proj2 (addToSearchHistory_existing (js "c")
                         (startState [js "a"; js "b"; js "c"] [])
                         Hnd Hlen Hw))).
Defined.

Lemma sublist_pop (a : list jstring) : pop a `sublist_of` a.
Proof. rewrite pop_take. apply sublist_take. Qed.

(** X7.  [addToSearchHistory] never reorders and never invents: behind the
    recorded word, the new history is the old one with some entries left
    out, the others in the order they had. *)
Theorem addToSearchHistory_keeps_order (w : jstring) (st : State) :
  exists t, searchHistory (addToSearchHistory w st) = w :: t
            /\ t `sublist_of` searchHistory st
            /\ (forall x, x ∈ searchHistory (addToSearchHistory w st) ->
                          x = w \/ x ∈ searchHistory st).
Proof.
  rewrite searchHistory_addToSearchHistory. cbn zeta.
  set (kept := filter (fun item => item <> w) (searchHistory st)).
  set (t := if bool_decide (5 <= length kept)%nat then pop kept else kept).
  assert (Ht : t `sublist_of` searchHistory st).
  { transitivity kept; [|apply sublist_filter].
    subst t. case_bool_decide; [apply sublist_pop | reflexivity]. }
  exists t. split; [reflexivity|]. split; [exact Ht|].
  intros x Hx. apply elem_of_cons in Hx as [-> | Hx]; [left; reflexivity|].
  right. eapply elem_of_sublist; [exact Hx | exact Ht].
Qed.

Lemma remove_dups_snoc (l : list jstring) (w : jstring) :
  remove_dups (l ++ [w])
  = filter (fun item => item <> w) (remove_dups l) ++ [w].
Proof.
  induction l as [|x l IH]; [reflexivity|].
  cbn [app remove_dups]. unfold decide_rel.
  destruct (list_elem_of_dec x (l ++ [w])) as [Hin | Hin];
    destruct (list_elem_of_dec x l) as [Hin' | Hin'].
  - exact IH.
  - assert (x = w) as ->.
    { apply elem_of_app in Hin as [Hin | Hin]; [contradiction|].
      apply list_elem_of_singleton in Hin. exact Hin. }
    rewrite filter_cons_False by tauto. exact IH.
  - exfalso. apply Hin, elem_of_app. left. exact Hin'.
  - assert (Hne : x <> w).
    { intros ->. apply Hin, elem_of_app. right.
      apply list_elem_of_singleton. reflexivity. }
    rewrite filter_cons_True by exact Hne. cbn [app]. f_equal. exact IH.
Qed.

Lemma take_filter_take (w : jstring) (L : list jstring) :
  NoDup L ->
  forall n,
    take n (filter (fun item => item <> w) (take (S n) L))
    = take n (filter (fun item => item <> w) L).
Proof.
  induction 1 as [|x L Hx Hnd IH]; intros n; [reflexivity|].
  destruct n as [|n]; [reflexivity|].
  cbn [take]. destruct (decide (x = w)) as [-> | Hne].
  - rewrite !filter_cons_False by tauto.
    rewrite (filter_fresh w L) by exact Hx.
    rewrite filter_fresh.
    + apply take_idemp.
    + intros Hin. apply Hx. eapply elem_of_sublist; [exact Hin|].
      apply sublist_take.
  - rewrite !filter_cons_True by exact Hne. cbn [take]. f_equal. apply IH.
Qed.

(** X8.  After any run of [addToSearchHistory] calls from the empty history,
    the history is the five most recently recorded distinct words, the most
    recent first: the words in the order of their last recording, reversed,
    cut at five. *)
Theorem recordAll_most_recent (ws : list jstring) :
  searchHistory (recordAll ws emptyState)
  = take 5 (reverse (remove_dups ws)).
Proof.
  induction ws as [|w ws IH] using rev_ind; [reflexivity|].
  rewrite recordAll_snoc.
  rewrite searchHistory_addToSearchHistory_take
    by (apply length_recordAll_bound; simpl; lia).
  rewrite IH, remove_dups_snoc, reverse_snoc, <- filter_reverse.
  cbn [take]. f_equal.
  apply (take_filter_take w (reverse (remove_dups ws))).
  rewrite reverse_Permutation. apply NoDup_remove_dups.
Qed.

(** ** Interaction controller: further properties *)

(** [performSearch], branch by branch. *)
Lemma performSearch_cases (E : Engine) (fetch : jstring -> FetchOutcome)
    (st : State) :
  let w := toLowerCase E (trim (wordInput st)) in
  let url := API_BASE_URL ++ w in
  let st1 := log_request url (set_resultSection LoadingView st) in
  performSearch E fetch st =
    if nonEmpty w then
      match fetch url with
      | FetchRejected e => showError (handlerMessage w e) st1
      | FetchResponse status body =>
          if ok status then
            match body with
            | BodyRejected e => showError (handlerMessage w e) st1
            | BodyData [] =>
                showError
                  (handlerMessage w (TypeError (destructureErrorMessage E)))
                  st1
            | BodyData (e :: _) =>
                addToSearchHistory w
                  (set_resultSection (ResultView (renderEntry E e)) st1)
            end
          else if status =? 404 then
            showError (dquote ++ w ++ dquote
                         ++ js " not found. Please try another word.") st1
          else
            showError (js "Something went wrong. Please try again later.")
              st1
      end
    else showError (js "Please enter a word to search.") st.
Proof.
  intros w url st1. unfold performSearch. fold w.
  destruct (nonEmpty w); [|reflexivity]. cbn [negb].
  unfold performSearch_try. fold url. fold st1.
  unfold handlerMessage.
  destruct (fetch url) as [e | status body];
    [cbn iota; case_bool_decide; reflexivity|].
  destruct (ok status); cbn [negb].
  - destruct body as [e | [|e rest]].
    + cbn iota. case_bool_decide; reflexivity.
    + cbn [lookup list_lookup displayWordInfo]. cbn iota.
      case_bool_decide; reflexivity.
    + cbn [lookup list_lookup]. rewrite displayWordInfo_Some. reflexivity.
  - destruct (status =? 404); reflexivity.
Qed.



Lemma requests_performSearch (E : Engine) (fetch : jstring -> FetchOutcome)
    (st : State) :
  requests (performSearch E fetch st)
  = (if nonEmpty (toLowerCase E (trim (wordInput st)))
     then [API_BASE_URL ++ toLowerCase E (trim (wordInput st))] else [])
    ++ requests st.
Proof.
  rewrite (performSearch_cases E fetch st). cbv zeta.
  set (w := toLowerCase E (trim (wordInput st))).
  destruct (nonEmpty w); [|reflexivity].
  destruct (fetch (API_BASE_URL ++ w)) as [e | status [e | [|e rest]]];
    try reflexivity;
    destruct (ok status); try reflexivity;
    destruct (status =? 404); reflexivity.
Qed.

(** X2.  Whatever the network does, [performSearch] issues exactly one
    request when the word is not empty, to the base URL followed by the
    lowercased, trimmed input as it is (nothing is escaped), and none when
    the word is empty; it never changes the input field. *)
Theorem performSearch_requests (E : Engine) (fetch : jstring -> FetchOutcome)
    (st : State) :
  let w := toLowerCase E (trim (wordInput st)) in
  let st' := performSearch E fetch st in
  requests st'
  = (if nonEmpty w then [API_BASE_URL ++ w] else []) ++ requests st
  /\ wordInput st' = wordInput st.
Proof.
  intros w st'. subst st' w.
  split; [apply requests_performSearch|].
  rewrite (performSearch_cases E fetch st). cbv zeta.
  set (w := toLowerCase E (trim (wordInput st))).
  destruct (nonEmpty w); [|reflexivity].
  destruct (fetch (API_BASE_URL ++ w)) as [e | status [e | [|e rest]]];
    try reflexivity;
    destruct (ok status); try reflexivity;
    destruct (status =? 404); reflexivity.
Qed.


Lemma historyMarkup_cons (w : jstring) (t : list jstring) :
  historyMarkup (w :: t) = HistoryItems (w :: t).
Proof. reflexivity. Qed.

(** [addToSearchHistory] takes a history within the bound and without
    duplicates to a consistent state, whatever the page and the storage
    held. *)
Lemma consistent_addToSearchHistory (E : Engine) (w : jstring) (st : State) :
  (length (searchHistory st) <= 5)%nat ->
  NoDup (searchHistory st) ->
  consistent E (addToSearchHistory w st).
Proof.
  intros Hlen Hnd. unfold consistent.
  split; [apply length_addToSearchHistory_bound, Hlen|].
  split; [apply NoDup_addToSearchHistory, Hnd|].
  split.
  - rewrite (addToSearchHistory_state w st) at 1. cbv zeta.
    cbn [historyList].
    rewrite (searchHistory_addToSearchHistory w st). reflexivity.
  - apply load_stringified, localStorage_addToSearchHistory.
Qed.

Lemma consistent_ext (E : Engine) (st st' : State) :
  searchHistory st' = searchHistory st ->
  historyList st' = historyList st ->
  localStorage st' = localStorage st ->
  consistent E st -> consistent E st'.
Proof. unfold consistent. intros -> -> ->. tauto. Qed.

Lemma consistent_performSearch (E : Engine)
    (fetch : jstring -> FetchOutcome) (st : State) :
  consistent E st -> consistent E (performSearch E fetch st).
Proof.
  intros Hc. pose proof (performSearch_cases E fetch st) as Hp.
  cbv zeta in Hp. rewrite Hp. clear Hp.
  set (w := toLowerCase E (trim (wordInput st))).
  destruct (nonEmpty w);
    [|exact (consistent_ext E st _ eq_refl eq_refl eq_refl Hc)].
  destruct (fetch (API_BASE_URL ++ w)) as [e | status [e | [|e rest]]];
    try exact (consistent_ext E st _ eq_refl eq_refl eq_refl Hc);
    destruct (ok status);
    try exact (consistent_ext E st _ eq_refl eq_refl eq_refl Hc);
    try (destruct (status =? 404);
         exact (consistent_ext E st _ eq_refl eq_refl eq_refl Hc)).
  destruct Hc as (Hlen & Hnd & _).
  apply consistent_addToSearchHistory; assumption.
Qed.

(** X4.  Consistency is an invariant of the page: whatever the user types
    and clicks and however the network answers, from a consistent state
    every handler leads to a consistent state; so does every run of events
    from the state of a page that starts with nothing stored. *)
Theorem consistent_run (E : Engine) :
  (forall (ev : Event) (st : State),
     consistent E st -> consistent E (handle E ev st))
  /\ (forall (evs : list Event) (st : State),
        consistent E st -> consistent E (run E evs st))
  /\ (forall (evs : list Event), consistent E (run E evs emptyState)).
Proof.
  assert (Hstep : forall ev st,
            consistent E st -> consistent E (handle E ev st)).
  { intros ev st Hc. destruct ev as [text | f | key f | dw f |]; cbn [handle].
    - exact (consistent_ext E st _ eq_refl eq_refl eq_refl Hc).
    - apply consistent_performSearch, Hc.
    - unfold keypressHandler. case_bool_decide; [|exact Hc].
      apply consistent_performSearch, Hc.
    - unfold tagClick. apply consistent_performSearch.
      exact (consistent_ext E st _ eq_refl eq_refl eq_refl Hc).
    - exact (consistent_ext E st _ eq_refl eq_refl eq_refl Hc). }
  assert (Hrun : forall evs st,
            consistent E st -> consistent E (run E evs st)).
  { induction evs as [|ev evs IH]; intros st Hc; [exact Hc|].
    apply (IH (handle E ev st)), Hstep, Hc. }
  split; [exact Hstep|]. split; [exact Hrun|].
  intros evs. apply Hrun. unfold consistent.
  split; [simpl; lia|]. split; [constructor|].
  split; reflexivity.
Qed.

(** X4 at a run of a typed word, a successful search and a failed one. *)
Lemma consistent_run_witness :
  consistent asciiEngine
    (run asciiEngine
       [Typed (js "Hello");
        SearchClick (fun _ => FetchResponse 200 (BodyData [helloEntry]));
        TagClick (js "zzzzz") (fun _ => FetchResponse 404 (BodyData []));
        TryAgainClick]
       (startState [] [])).
Proof.
  apply (proj1 (proj2 (consistent_run asciiEngine))).
  unfold consistent. split; [simpl; lia|]. split; [constructor|].
  split; reflexivity.
Defined.

(** X10.  Only the first sense is shown: the result depends on the first
    entry of the response alone, and of that entry on its first meaning and
    the first definition of that meaning. *)
Theorem performSearch_first_sense (E : Engine)
    (fetch fetch' : jstring -> FetchOutcome) (st : State) (status : N)
    (e : DictionaryEntry) (rest : list DictionaryEntry) :
  let url := API_BASE_URL ++ toLowerCase E (trim (wordInput st)) in
  fetch url = FetchResponse status (BodyData (e :: rest)) ->
  fetch' url = FetchResponse status (BodyData [firstSense e]) ->
  renderEntry E (firstSense e) = renderEntry E e
  /\ performSearch E fetch' st = performSearch E fetch st.
Proof.
  intros url Hf Hf'.
  assert (Hr : renderEntry E (firstSense e) = renderEntry E e).
  { unfold renderEntry, firstSense. cbn [word phonetic phonetics meanings].
    destruct (meanings e) as [[|[pos defs] ms]|]; try reflexivity.
    cbn [partOfSpeech definitions].
    destruct defs as [[|d ds]|]; reflexivity. }
  split; [exact Hr|].
  rewrite (performSearch_cases E fetch st), (performSearch_cases E fetch' st).
  cbv zeta. fold url. rewrite Hf, Hf', Hr. reflexivity.
Qed.

(** X10 at a response of two entries. *)
Lemma performSearch_first_sense_witness :
  performSearch asciiEngine
    (fun _ => FetchResponse 200 (BodyData [firstSense helloEntry]))
    (startState [] (js "hello"))
  = performSearch asciiEngine
      (fun _ => FetchResponse 200 (BodyData [helloEntry; emptyDefinitionEntry]))
      (startState [] (js "hello")).
Proof.
  exact (proj2 (performSearch_first_sense asciiEngine
                  (fun _ => FetchResponse 200
                              (BodyData [helloEntry; emptyDefinitionEntry]))
                  (fun _ => FetchResponse 200
                              (BodyData [firstSense helloEntry]))
                  (startState [] (js "hello")) 200 helloEntry
                  [emptyDefinitionEntry] eq_refl eq_refl)).
Defined.

(** ** Input validation: further properties *)

Lemma trimStart_app_whitespace (pre s : jstring) :
  Forall (fun c => isWhiteSpace c = true) pre ->
  trimStart (pre ++ s) = trimStart s.
Proof.
  induction 1 as [|c pre Hc _ IH]; [reflexivity|].
  cbn [app trimStart]. rewrite Hc. exact IH.
Qed.

Lemma trimEnd_app_whitespace (s post : jstring) :
  Forall (fun c => isWhiteSpace c = true) post ->
  trimEnd (s ++ post) = trimEnd s.
Proof.
  intros H. unfold trimEnd. rewrite rev_app_distr.
  rewrite trimStart_app_whitespace; [reflexivity|].
  apply Forall_rev, H.
Qed.

Lemma trim_app_whitespace (s post : jstring) :
  Forall (fun c => isWhiteSpace c = true) post ->
  trim (s ++ post) = trim s.
Proof.
  intros H. unfold trim. induction s as [|c s IH].
  - cbn [app]. rewrite (trimStart_whitespace post H). reflexivity.
  - cbn [app trimStart]. destruct (isWhiteSpace c); [exact IH|].
    apply (trimEnd_app_whitespace (c :: s) post H).
Qed.

Lemma trim_surrounded (pre s post : jstring) :
  Forall (fun c => isWhiteSpace c = true) pre ->
  Forall (fun c => isWhiteSpace c = true) post ->
  trim (pre ++ s ++ post) = trim s.
Proof.
  intros Hpre Hpost. rewrite <- (trim_app_whitespace s post Hpost).
  unfold trim. rewrite trimStart_app_whitespace by exact Hpre. reflexivity.
Qed.

Lemma trimStart_nil_inv (s : jstring) :
  trimStart s = [] -> Forall (fun c => isWhiteSpace c = true) s.
Proof.
  induction s as [|c s IH]; intros H; [constructor|].
  cbn [trimStart] in H. destruct (isWhiteSpace c) eqn:Hc; [|discriminate].
  constructor; [exact Hc | apply IH, H].
Qed.

Lemma trimStart_head (s t : jstring) (c : N) :
  trimStart s = c :: t -> isWhiteSpace c = false.
Proof.
  induction s as [|d s IH]; intros H; [discriminate|].
  cbn [trimStart] in H. destruct (isWhiteSpace d) eqn:Hd; [apply IH, H|].
  injection H as <- _. exact Hd.
Qed.

Lemma trim_nil_inv (s : jstring) :
  trim s = [] -> Forall (fun c => isWhiteSpace c = true) s.
Proof.
  unfold trim, trimEnd. intros H.
  apply trimStart_nil_inv.
  destruct (trimStart s) as [|c t] eqn:Hs; [reflexivity|].
  exfalso.
  assert (Hrev : trimStart (rev (c :: t)) = []).
  { destruct (trimStart (rev (c :: t))) as [|x l] eqn:Hx; [reflexivity|].
    apply (f_equal (@length N)) in H. rewrite length_rev in H.
    simpl in H. lia. }
  apply trimStart_nil_inv, Forall_rev in Hrev.
  rewrite rev_involutive in Hrev.
  apply Forall_cons in Hrev as [Hc _].
  apply trimStart_head in Hs. congruence.
Qed.

(** The outcome of a search depends on the input field through its trimmed
    text only. *)
Lemma performSearch_input (E : Engine) (fetch : jstring -> FetchOutcome)
    (v : jstring) (st : State) :
  trim v = trim (wordInput st) ->
  performSearch E fetch (set_wordInput v st)
  = set_wordInput v (performSearch E fetch st).
Proof.
  intros Hv.
  rewrite (performSearch_cases E fetch st),
          (performSearch_cases E fetch (set_wordInput v st)).
  cbv zeta. cbn [wordInput set_wordInput]. rewrite Hv.
  set (w := toLowerCase E (trim (wordInput st))).
  destruct (nonEmpty w); [|reflexivity].
  destruct (fetch (API_BASE_URL ++ w)) as [e | status [e | [|e rest]]];
    try reflexivity;
    destruct (ok status); try reflexivity;
    destruct (status =? 404); reflexivity.
Qed.

(** X11.  White space around the text of the input field is ignored: the
    text trims to the same word, and the search ends in the same state, the
    input field apart. *)
Theorem performSearch_surrounding_whitespace (E : Engine)
    (fetch : jstring -> FetchOutcome) (pre s post : jstring) (st : State) :
  Forall (fun c => isWhiteSpace c = true) pre ->
  Forall (fun c => isWhiteSpace c = true) post ->
  trim (pre ++ s ++ post) = trim s
  /\ performSearch E fetch (set_wordInput (pre ++ s ++ post) st)
     = set_wordInput (pre ++ s ++ post)
         (performSearch E fetch (set_wordInput s st)).
Proof.
  intros Hpre Hpost.
  pose proof (trim_surrounded pre s post Hpre Hpost) as Ht.
  split; [exact Ht|].
  rewrite <- (performSearch_input E fetch (pre ++ s ++ post)
                (set_wordInput s st)) by exact Ht.
  reflexivity.
Qed.

(** X11 at the word "hello" between blanks and a line break. *)
Lemma performSearch_surrounding_whitespace_witness :
  trim ([0x20; 0x9] ++ js "hello" ++ [0xA; 0x20]) = trim (js "hello").
Proof.
  refine (proj1 (performSearch_surrounding_whitespace asciiEngine
                   (fun _ => FetchRejected (TypeError (js "Failed to fetch")))
                   [0x20; 0x9] (js "hello") [0xA; 0x20] emptyState _ _));
    repeat constructor.
Defined.

Lemma notFound_not_prompt (w : jstring) :
  dquote ++ w ++ dquote ++ js " not found. Please try another word."
  <> js "Please enter a word to search.".
Proof.
  intros H. apply (f_equal head) in H. vm_compute in H. discriminate H.
Qed.

Lemma generic_not_prompt :
  js "Something went wrong. Please try again later."
  <> js "Please enter a word to search.".
Proof. intros H. vm_compute in H. discriminate H. Qed.

Lemma handlerMessage_not_prompt (w : jstring) (e : exn) :
  handlerMessage w e <> js "Please enter a word to search.".
Proof.
  unfold handlerMessage. case_bool_decide;
    [apply notFound_not_prompt | apply generic_not_prompt].
Qed.

Lemma resultSection_showError_prompt (m : jstring) (s : State) :
  m <> js "Please enter a word to search." ->
  resultSection (showError m s)
  <> ErrorView (js "Please enter a word to search.").
Proof. intros Hm H. injection H as H. exact (Hm H). Qed.

Lemma resultSection_performSearch_prompt (E : Engine)
    (fetch : jstring -> FetchOutcome) (st : State) :
  nonEmpty (toLowerCase E (trim (wordInput st))) = true ->
  resultSection (performSearch E fetch st)
  <> ErrorView (js "Please enter a word to search.").
Proof.
  intros Hw. rewrite (performSearch_cases E fetch st). cbv zeta.
  rewrite Hw. set (w := toLowerCase E (trim (wordInput st))).
  destruct (fetch (API_BASE_URL ++ w)) as [e | status [e | [|e rest]]].
  - apply resultSection_showError_prompt, handlerMessage_not_prompt.
  - destruct (ok status); [|destruct (status =? 404)];
      apply resultSection_showError_prompt;
      [apply handlerMessage_not_prompt | apply notFound_not_prompt
      | apply generic_not_prompt].
  - destruct (ok status); [|destruct (status =? 404)];
      apply resultSection_showError_prompt;
      [apply handlerMessage_not_prompt | apply notFound_not_prompt
      | apply generic_not_prompt].
  - destruct (ok status); [|destruct (status =? 404)].
    + rewrite addToSearchHistory_state. discriminate.
    + apply resultSection_showError_prompt, notFound_not_prompt.
    + apply resultSection_showError_prompt, generic_not_prompt.
Qed.

(** X12.  Validation rejects exactly the inputs made of white space.  On an
    engine whose [toLowerCase] gives the empty string for the empty string
    only, [performSearch] issues no request exactly when the input holds
    nothing but white space, and shows "Please enter a word to search."
    exactly then. *)
Theorem performSearch_validation_exact (E : Engine)
    (fetch : jstring -> FetchOutcome) (st : State) :
  (forall s, toLowerCase E s = [] <-> s = []) ->
  let st' := performSearch E fetch st in
  (requests st' = requests st
   <-> Forall (fun c => isWhiteSpace c = true) (wordInput st))
  /\ (resultSection st' = ErrorView (js "Please enter a word to search.")
      <-> Forall (fun c => isWhiteSpace c = true) (wordInput st)).
Proof.
  intros Hlower st'. subst st'.
  pose proof (requests_performSearch E fetch st) as Hreq.
  pose proof (resultSection_performSearch_prompt E fetch st) as Hview.
  destruct (nonEmpty (toLowerCase E (trim (wordInput st)))) eqn:Hw.
  - assert (Hnot : ~ Forall (fun c => isWhiteSpace c = true) (wordInput st)).
    { intros Hall. apply nonEmpty_true in Hw. apply Hw.
      rewrite (trim_whitespace _ Hall). apply Hlower. reflexivity. }
    split; (split; [|tauto]).
    + intros H. rewrite H in Hreq.
      apply (f_equal (@length jstring)) in Hreq. simpl in Hreq. lia.
    + intros H. exfalso. exact (Hview eq_refl H).
  - assert (Hall : Forall (fun c => isWhiteSpace c = true) (wordInput st)).
    { apply nonEmpty_false in Hw. apply trim_nil_inv, Hlower, Hw. }
    split; (split; [intros _; exact Hall | intros _]).
    + exact Hreq.
    + unfold performSearch. rewrite Hw. reflexivity.
Qed.

(** X12 at an input with a letter in it. *)
Lemma performSearch_validation_exact_witness :
  (requests (performSearch asciiEngine
               (fun _ => FetchResponse 404 (BodyData []))
               (startState [] (js " a ")))
   = requests (startState [] (js " a "))
   <-> Forall (fun c => isWhiteSpace c = true)
         (wordInput (startState [] (js " a "))))
  /\ (resultSection (performSearch asciiEngine
                       (fun _ => FetchResponse 404 (BodyData []))
                       (startState [] (js " a ")))
      = ErrorView (js "Please enter a word to search.")
      <-> Forall (fun c => isWhiteSpace c = true)
            (wordInput (startState [] (js " a ")))).
Proof.
  assert (Hlower : forall s, toLowerCase asciiEngine s = [] <-> s = []).
  { intros s. cbn [toLowerCase asciiEngine].
    destruct s; cbn; split; congruence. }
  exact (performSearch_validation_exact asciiEngine
           (fun _ => FetchResponse 404 (BodyData []))
           (startState [] (js " a ")) Hlower).
Defined.

(** ** Result renderer: further properties *)

Lemma find_first {A : Type} (f : A -> bool) (l : list A) :
  match List.find f l with
  | Some x =>
      exists before after,
        l = before ++ x :: after /\ f x = true
        /\ Forall (fun y => f y = false) before
  | None => Forall (fun y => f y = false) l
  end.
Proof.
  induction l as [|a l IH]; cbn [List.find]; [constructor|].
  destruct (f a) eqn:Ha.
  - exists [], l. split; [reflexivity|]. split; [exact Ha | constructor].
  - destruct (List.find f l) as [x|].
    + destruct IH as (before & after & -> & Hx & Hb).
      exists (a :: before), after. split; [reflexivity|].
      split; [exact Hx | constructor; assumption].
    + constructor; assumption.
Qed.

(** X9.  The audio button.  When the view has an enabled audio button, its
    URL is not empty and is the [audio] of the first element of [phonetics]
    that has a non-empty one; when the button is disabled, no element of
    [phonetics] has a non-empty [audio]. *)
Theorem renderEntry_audio (E : Engine) (wd : DictionaryEntry) :
  match audioButton (renderEntry E wd) with
  | Some url =>
      url <> []
      /\ exists ps before p after,
           phonetics wd = Some ps /\ ps = before ++ p :: after
           /\ audio p = Some url
           /\ Forall (fun q => truthyString (audio q) = false) before
  | None =>
      forall ps, phonetics wd = Some ps ->
        Forall (fun q => truthyString (audio q) = false) ps
  end.
Proof.
  assert (Hbutton : audioButton (renderEntry E wd) =
            match phonetics wd with
            | Some ps =>
                if bool_decide (0 < length ps)%nat then
                  match List.find (fun p => truthyString (audio p)) ps with
                  | Some audioPhonetic => audio audioPhonetic
                  | None => None
                  end
                else None
            | None => None
            end).
  { unfold renderEntry.
    destruct (meanings wd) as [[|[pos defs] ms]|]; try reflexivity.
    cbn [partOfSpeech definitions].
    destruct defs as [[|d ds]|]; reflexivity. }
  rewrite Hbutton. clear Hbutton.
  destruct (phonetics wd) as [ps|]; [|intros ps; discriminate].
  case_bool_decide as Hlen.
  - pose proof (find_first (fun p => truthyString (audio p)) ps) as Hfind.
    destruct (List.find _ ps) as [p|].
    + destruct Hfind as (before & after & Hps & Hp & Hb).
      destruct (audio p) as [[|c url]|] eqn:Ha; try discriminate Hp.
      split; [discriminate|].
      exists ps, before, p, after. repeat split; assumption.
    + intros ps' Heq. injection Heq as <-. exact Hfind.
  - intros ps' Heq. injection Heq as <-.
    destruct ps; [constructor | simpl in Hlen; lia].
Qed.

(** X13.  Placeholders come with their presentation.  The example is styled
    "example-not-available" exactly when the placeholder "Example not
    available" is shown, and "example" otherwise.  The icon is never
    undefined, and it is the default icon whenever the entry gives no part
    of speech (no meanings, or a first meaning whose part of speech is absent
    or empty), which is when "Not specified" is shown. *)
Theorem renderEntry_placeholders (E : Engine) (wd : DictionaryEntry) :
  let r := renderEntry E wd in
  (exampleClass r = js "example-not-available"
   <-> exampleText r = js "Example not available")
  /\ (exampleClass r = js "example"
      \/ exampleClass r = js "example-not-available")
  /\ posIcon r <> Undefined
  /\ (match meanings wd with
      | Some (m :: _) => truthyString (partOfSpeech m) = false
      | _ => True
      end ->
      posIcon r = IconClass (js "fas fa-font")
      /\ posText r = js "Not specified").
Proof.
  assert (Hex : forall ex : jstring,
            ((if nonEmpty ex then js "example"
              else js "example-not-available")
             = js "example-not-available"
             <-> (if nonEmpty ex then dquote ++ ex ++ dquote
                  else js "Example not available")
                 = js "Example not available")
            /\ ((if nonEmpty ex then js "example"
                 else js "example-not-available") = js "example"
                \/ (if nonEmpty ex then js "example"
                    else js "example-not-available")
                   = js "example-not-available")).
  { intros ex. destruct (nonEmpty ex).
    - split; [|left; reflexivity]. split; intros H; exfalso.
      + vm_compute in H. discriminate H.
      + apply (f_equal head) in H. vm_compute in H. discriminate H.
    - split; [tauto | right; reflexivity]. }
  assert (Hpos : forall x : option jstring,
            truthyString x = false -> orElse x [] = []).
  { intros [[|c s]|]; simpl; congruence. }
  unfold renderEntry.
  destruct (meanings wd) as [[|[pos defs] ms]|].
  - cbn zeta. cbn [exampleClass exampleText posIcon posText nonEmpty].
    split; [tauto|]. split; [right; reflexivity|].
    split; [apply getPartOfSpeechIcon_defined|].
    intros _. split; [apply getPartOfSpeechIcon_empty | reflexivity].
  - cbn [partOfSpeech definitions].
    destruct defs as [[|[def ex] ds]|];
      cbn zeta; cbn [exampleClass exampleText posIcon posText definition example];
      (split; [try tauto; apply Hex|]);
      (split; [try (right; reflexivity); apply Hex|]);
      (split; [apply getPartOfSpeechIcon_defined|]);
      intros Hp; rewrite (Hpos _ Hp); cbn [nonEmpty];
      (split; [apply getPartOfSpeechIcon_empty | reflexivity]).
  - cbn zeta. cbn [exampleClass exampleText posIcon posText nonEmpty].
    split; [tauto|]. split; [right; reflexivity|].
    split; [apply getPartOfSpeechIcon_defined|].
    intros _. split; [apply getPartOfSpeechIcon_empty | reflexivity].
Qed.

(** X13 at an entry without meanings. *)
Lemma renderEntry_placeholders_witness :
  posIcon (renderEntry asciiEngine
             {| word := Some (js "x"); phonetic := None; phonetics := None;
                meanings := None |})
  = IconClass (js "fas fa-font").
Proof.
  exact (proj1 (proj2 (proj2 (proj2
           (renderEntry_placeholders asciiEngine
              {| word := Some (js "x"); phonetic := None; phonetics := None;
                 meanings := None |}))) I)).
Defined.

(** ** Compositions *)



(** X15.  The stored text determines the history: two histories that
    [JSON.stringify] writes as the same text are the same history. *)
Theorem JSON_stringify_injective (h1 h2 : list jstring) :
  JSON_stringify h1 = JSON_stringify h2 -> h1 = h2.
Proof.
  intros H.
  pose proof (JSON_parse_stringify h1) as H1.
  rewrite H, JSON_parse_stringify in H1.
  injection H1 as H1.
  revert h2 H1 H. induction h1 as [|a h1 IH]; intros [|b h2] H1 H;
    try discriminate H1; [reflexivity|].
  injection H1 as -> H1. f_equal. symmetry.
  clear H IH. revert h2 H1.
  induction h1 as [|c h1 IH]; intros [|d h2] H1; try discriminate H1;
    [reflexivity|].
  injection H1 as -> H1. f_equal. apply IH, H1.
Qed.

(** X15 at two one-word histories. *)
Lemma JSON_stringify_injective_witness :
  [js "a"] = [js "a"].
Proof.
  apply (JSON_stringify_injective [js "a"] [js "a"]). reflexivity.
Defined.
